(** * Origami animation engine (src/animation.js): a shallow embedding

    The engine is the class [OrigamiAnimation]: a set of folding squares
    that is advanced once per display frame ([update]) and then painted
    ([draw]).

    Modelling decisions.
    - A JavaScript number is a real number ([R]); [Math.sin], [Math.cos],
      [Math.sqrt], [Math.PI] and [Math.floor] are [sin], [cos], [sqrt],
      [PI] and [Zfloor].  Rounding, NaN and the infinities are outside the
      model.  Only the fold animation is given a second time on binary64
      numbers ([fold_animation_f64]), for what depends on a sum meeting
      [2 * Math.PI] exactly.
    - JavaScript's [/] never throws, it yields an infinity or NaN that the
      later comparisons silently absorb.  To make a zero divisor visible,
      every division of the source goes through [div], which raises
      [DivisionByZero]; [createRadialGradient] raises [IndexSizeError] on a
      negative radius, as the canvas API does.
    - [Math.random()] is a stream [rnd : nat -> R] of the values that the
      successive calls return.
    - The 2D context is the list of the drawing calls issued on it.
    - [requestAnimationFrame] is a counter of outstanding frame requests.

    Of the page scripts (src/unnamed/part_000) the file models
    [isValidEmail], on strings as lists of UTF-16 code units, and the
    [keydown] listener of the checkbox groups. *)

From Stdlib Require Import Floats.
From Stdlib Require Import Reals Lra Lia List ZArith String Bool.
From Stdlib Require Import Sorting.Sorted Sorting.Permutation.
Import ListNotations.
Open Scope R_scope.

(** * The engine *)

(** ** Errors *)

(** [OutOfFuel] is not a JavaScript exception: it marks a loop of the
    model that reached its iteration bound before its test failed. *)
Inductive Exn : Type :=
| DivisionByZero
| IndexSizeError
| OutOfFuel.

Inductive Result (A : Type) : Type :=
| Ok (a : A)
| Raise (e : Exn).

Arguments Ok {A} a.
Arguments Raise {A} e.

Definition bind {A B : Type} (m : Result A) (k : A -> Result B) : Result B :=
  match m with
  | Ok a => k a
  | Raise e => Raise e
  end.

Notation "v <- m ;; k" := (bind m (fun v => k))
  (at level 61, m at next level, right associativity).

Definition div (a b : R) : Result R :=
  if Req_dec_T b 0 then Raise DivisionByZero else Ok (a / b).

Definition ltb (a b : R) : bool := if Rlt_dec a b then true else false.
Definition gtb (a b : R) : bool := ltb b a.

(** ** Data *)

Inductive ColorKey : Type :=
| bg | pink | green | yellow | blue | purple | orange | white.

(** [this.colors], the Monokai palette. *)
Definition colors (k : ColorKey) : string :=
  match k with
  | bg => "#1e1f1a"
  | pink => "#f92672"
  | green => "#a6e22e"
  | yellow => "#e6db74"
  | blue => "#66d9ef"
  | purple => "#ae81ff"
  | orange => "#fd971f"
  | white => "#f8f8f2"
  end%string.

(** One element of [this.squares].  [color] is [None] where JavaScript
    would store [undefined]. *)
Record Square : Type := mkSquare {
  x : R;
  y : R;
  size : R;
  rotation : R;
  rotationSpeed : R;
  color : option string;
  opacity : R;
  phaseX : R;
  phaseY : R;
  speedX : R;
  speedY : R;
  amplitudeX : R;
  amplitudeY : R;
  baseX : R;
  baseY : R;
  foldState : R;
  foldSpeed : R;
  layer : Z
}.

Inductive Style : Type :=
| Color (c : option string)
| RadialGradient (x0 y0 r0 x1 y1 r1 : R) (stops : list (R * string)).

(** The calls on the 2D context that the engine makes. *)
Inductive Cmd : Type :=
| save
| restore
| translate (a b : R)
| rotate (a : R)
| scale (a b : R)
| fillStyle (s : Style)
| strokeStyle (s : Style)
| globalAlpha (a : R)
| lineWidth (w : R)
| beginPath
| moveTo (a b : R)
| lineTo (a b : R)
| closePath
| fill
| stroke
| fillRect (a b w h : R).

(** The fields of an [OrigamiAnimation], with the canvas' pixel size, the
    calls issued on [this.ctx] so far (latest last) and the number of
    frame requests that the host has not run yet. *)
Record Engine : Type := mkEngine {
  canvas_width : R;
  canvas_height : R;
  ctx : list Cmd;
  squares : list Square;
  time : nat;
  mouseX : R;
  mouseY : R;
  isRunning : bool;
  width : R;
  height : R;
  pending : nat
}.

(** ** update *)

(** The body of the [forEach] callback of [update]; [this.time] has
    already been incremented. *)
Definition update_square (this : Engine) (i : nat) (square : Square)
  : Result Square :=
  let t := INR (time this) in
  (* Organic movement *)
  let x1 := baseX square
            + sin (t * 0.001 * speedX square + phaseX square) * amplitudeX square in
  let y1 := baseY square
            + cos (t * 0.001 * speedY square + phaseY square) * amplitudeY square in
  (* Subtle drift *)
  let bx1 := baseX square + sin (t * 0.0003 + INR i) * 0.1 in
  let by1 := baseY square + cos (t * 0.0003 + INR i) * 0.1 in
  (* Wrap around edges *)
  let bx2 := if ltb bx1 (- size square) then width this + size square else bx1 in
  let bx3 := if gtb bx2 (width this + size square) then - size square else bx2 in
  let by2 := if ltb by1 (- size square) then height this + size square else by1 in
  let by3 := if gtb by2 (height this + size square) then - size square else by2 in
  (* Rotation *)
  let rot := rotation square + rotationSpeed square in
  (* Fold animation *)
  let fs1 := foldState square + foldSpeed square in
  let fs2 := if gtb fs1 (2 * PI) then 0 else fs1 in
  (* Mouse interaction *)
  let dx := mouseX this - x1 in
  let dy := mouseY this - y1 in
  let dist := sqrt (dx * dx + dy * dy) in
  if ltb dist 150 && gtb dist 0 then
    force <- div (150 - dist) 150 ;;
    ux <- div dx dist ;;
    uy <- div dy dist ;;
    Ok {| x := x1; y := y1; size := size square;
          rotation := rot; rotationSpeed := rotationSpeed square;
          color := color square; opacity := opacity square;
          phaseX := phaseX square; phaseY := phaseY square;
          speedX := speedX square; speedY := speedY square;
          amplitudeX := amplitudeX square; amplitudeY := amplitudeY square;
          baseX := bx3 - ux * force * 0.5;
          baseY := by3 - uy * force * 0.5;
          foldState := fs2; foldSpeed := foldSpeed square;
          layer := layer square |}
  else
    Ok {| x := x1; y := y1; size := size square;
          rotation := rot; rotationSpeed := rotationSpeed square;
          color := color square; opacity := opacity square;
          phaseX := phaseX square; phaseY := phaseY square;
          speedX := speedX square; speedY := speedY square;
          amplitudeX := amplitudeX square; amplitudeY := amplitudeY square;
          baseX := bx3; baseY := by3;
          foldState := fs2; foldSpeed := foldSpeed square;
          layer := layer square |}.

(** [array.forEach((square, i) => ...)] from index [i] on. *)
Fixpoint forEach (f : nat -> Square -> Result Square) (i : nat)
  (l : list Square) : Result (list Square) :=
  match l with
  | [] => Ok []
  | square :: rest =>
      square' <- f i square ;;
      rest' <- forEach f (S i) rest ;;
      Ok (square' :: rest')
  end.

(** [this.time = t; this.squares = sqs]. *)
Definition with_squares (this : Engine) (t : nat) (sqs : list Square) : Engine :=
  {| canvas_width := canvas_width this; canvas_height := canvas_height this;
     ctx := ctx this; squares := sqs; time := t;
     mouseX := mouseX this; mouseY := mouseY this;
     isRunning := isRunning this;
     width := width this; height := height this;
     pending := pending this |}.

Definition update (this : Engine) : Result Engine :=
  let this1 := with_squares this (S (time this)) (squares this) in
  sqs <- forEach (update_square this1) 0%nat (squares this1) ;;
  Ok (with_squares this1 (time this1) sqs).

(** ** Drawing *)

(** [const fold] of [drawFoldedSquare]. *)
Definition fold_amount (square : Square) : R :=
  sin (foldState square * PI) * 0.5.

Definition drawFoldedSquare (square : Square) : Result (list Cmd) :=
  let sz := size square in
  let fold := fold_amount square in
  h <- div sz 2 ;;          (* size / 2 *)
  nh <- div (- sz) 2 ;;     (* -size / 2 *)
  q <- div sz 4 ;;          (* size / 4 *)
  nq <- div (- sz) 4 ;;     (* -size / 4 *)
  Ok ([ save; translate (x square) (y square); rotate (rotation square);
        globalAlpha (opacity square) ]
      (* Back face (visible when folding) *)
      ++ (if gtb fold 0.1 then
            [ fillStyle (Color (color square));
              globalAlpha (opacity square * 0.3);
              beginPath;
              moveTo nh nh;
              lineTo (h * (1 - fold)) nh;
              lineTo (h * (1 - fold)) h;
              lineTo nh h;
              closePath; fill ]
          else [])
      (* Front face *)
      ++ [ fillStyle (Color (color square));
           globalAlpha (opacity square);
           beginPath;
           moveTo (nh * (1 - fold * 0.3)) nh;
           lineTo h (nh * (1 - fold * 0.5));
           lineTo (h * (1 - fold * 0.2)) h;
           lineTo nh (h * (1 - fold * 0.4));
           closePath; fill;
           (* Add subtle border *)
           strokeStyle (Color (color square));
           globalAlpha (opacity square * 0.5);
           lineWidth 1;
           stroke ]
      (* Inner fold line *)
      ++ (if gtb fold 0.05 then
            [ beginPath; moveTo nq nh; lineTo q h;
              globalAlpha (opacity square * fold * 0.5);
              stroke ]
          else [])
      ++ [ restore ]).

Definition gridSize : R := 80.

(** [for (let v = v0; v < limit; v += gridSize) body(v)], unrolled at most
    [fuel] times. *)
Fixpoint grid_loop (fuel : nat) (limit : R) (body : R -> list Cmd) (v : R)
  : Result (list Cmd) :=
  match fuel with
  | O => Raise OutOfFuel
  | S fuel' =>
      if ltb v limit then
        rest <- grid_loop fuel' limit body (v + gridSize) ;;
        Ok (body v ++ rest)
      else Ok []
  end.

(** An iteration bound that the loop up to [limit] never reaches
    ([grid_loop_total]). *)
Definition grid_fuel (limit : R) : nat := S (Z.to_nat (up (limit / gridSize))).

Definition vertical_line (this : Engine) (v : R) : list Cmd :=
  let offset := sin (INR (time this) * 0.001 + v * 0.01) * 5 in
  [ beginPath; moveTo (v + offset) 0; lineTo (v - offset) (height this); stroke ].

Definition horizontal_line (this : Engine) (v : R) : list Cmd :=
  let offset := cos (INR (time this) * 0.001 + v * 0.01) * 5 in
  [ beginPath; moveTo 0 (v + offset); lineTo (width this) (v - offset); stroke ].

Definition vertical_lines (this : Engine) : Result (list Cmd) :=
  grid_loop (grid_fuel (width this)) (width this) (vertical_line this) 0.

Definition horizontal_lines (this : Engine) : Result (list Cmd) :=
  grid_loop (grid_fuel (height this)) (height this) (horizontal_line this) 0.

Definition drawGridLines (this : Engine) : Result (list Cmd) :=
  vs <- vertical_lines this ;;
  hs <- horizontal_lines this ;;
  Ok ([ strokeStyle (Color (Some (colors white)));
        lineWidth 0.5; globalAlpha 0.03 ] ++ vs ++ hs).

(** [ctx.createRadialGradient]: a negative radius is an [IndexSizeError]. *)
Definition createRadialGradient (x0 y0 r0 x1 y1 r1 : R) : Result Style :=
  if ltb r0 0 || ltb r1 0 then Raise IndexSizeError
  else Ok (RadialGradient x0 y0 r0 x1 y1 r1 []).

Definition addColorStop (g : Style) (offset : R) (c : string) : Style :=
  match g with
  | RadialGradient x0 y0 r0 x1 y1 r1 stops =>
      RadialGradient x0 y0 r0 x1 y1 r1 (stops ++ [(offset, c)])
  | Color c' => Color c'
  end.

Fixpoint draw_squares (l : list Square) : Result (list Cmd) :=
  match l with
  | [] => Ok []
  | square :: rest =>
      cs <- drawFoldedSquare square ;;
      cs' <- draw_squares rest ;;
      Ok (cs ++ cs')
  end.

(** The calls that one [draw] makes, in order. *)
Definition draw (this : Engine) : Result (list Cmd) :=
  grid <- drawGridLines this ;;
  sq <- draw_squares (squares this) ;;
  (* Add vignette effect *)
  cx <- div (width this) 2 ;;
  cy <- div (height this) 2 ;;
  g <- createRadialGradient cx cy 0 cx cy
         (Rmax (width this) (height this) * 0.7) ;;
  let g1 := addColorStop g 0 "rgba(30, 31, 26, 0)" in
  let g2 := addColorStop g1 1 "rgba(30, 31, 26, 0.4)" in
  Ok ([ fillStyle (Color (Some (colors bg)));
        fillRect 0 0 (width this) (height this) ]
      ++ grid ++ sq
      ++ [ fillStyle g2; fillRect 0 0 (width this) (height this) ]).

(** ** Creation *)

Definition numSquares : nat := 40.

Definition colorKeys : list ColorKey :=
  [pink; green; yellow; blue; purple; orange].

(** [l[k]] for an integral [k]; [None] is [undefined]. *)
Definition index {A : Type} (l : list A) (k : Z) : option A :=
  if (k <? 0)%Z then None else nth_error l (Z.to_nat k).

(** Calls of [Math.random] per object literal of [createSquares]. *)
Definition draws_per_square : nat := 18.

(** The object pushed at iteration [i], the [j]-th call of [Math.random]
    of that iteration returning [rnd (i * 18 + j)]. *)
Definition new_square (this : Engine) (rnd : nat -> R) (i : nat) : Square :=
  let r := fun j => rnd (i * draws_per_square + j)%nat in
  {| x := r 0%nat * width this;
     y := r 1%nat * height this;
     size := 20 + r 2%nat * 60;
     rotation := r 3%nat * PI * 2;
     rotationSpeed := (r 4%nat - 0.5) * 0.02;
     color := option_map colors
                (index colorKeys (Zfloor (r 5%nat * INR (List.length colorKeys))));
     opacity := 0.1 + r 6%nat * 0.4;
     phaseX := r 7%nat * PI * 2;
     phaseY := r 8%nat * PI * 2;
     speedX := 0.3 + r 9%nat * 0.5;
     speedY := 0.3 + r 10%nat * 0.5;
     amplitudeX := 20 + r 11%nat * 40;
     amplitudeY := 20 + r 12%nat * 40;
     baseX := r 13%nat * width this;
     baseY := r 14%nat * height this;
     foldState := r 15%nat;
     foldSpeed := 0.005 + r 16%nat * 0.01;
     layer := Zfloor (r 17%nat * 3) |}.

(** The comparator [(a, b) => a.layer - b.layer]. *)
Definition compare_layer (a b : Square) : Z := (layer a - layer b)%Z.

(** [Array.prototype.sort] is stable; a stable insertion sort stands for
    it. *)
Fixpoint insert (a : Square) (l : list Square) : list Square :=
  match l with
  | [] => [a]
  | b :: l' =>
      if (compare_layer a b <=? 0)%Z then a :: b :: l' else b :: insert a l'
  end.

Fixpoint sort (l : list Square) : list Square :=
  match l with
  | [] => []
  | a :: l' => insert a (sort l')
  end.

Definition createSquares (rnd : nat -> R) (this : Engine) : Engine :=
  with_squares this (time this)
    (sort (map (new_square this rnd) (seq 0 numSquares))).

(** [window.devicePixelRatio || 1]. *)
Definition dpr_or_1 (devicePixelRatio : R) : R :=
  if Req_dec_T devicePixelRatio 0 then 1 else devicePixelRatio.

(** [resize], for a parent rectangle of [rect_width] by [rect_height].
    The CSS size of the canvas is not part of the model. *)
Definition resize (rect_width rect_height devicePixelRatio : R)
  (this : Engine) : Engine :=
  let dpr := dpr_or_1 devicePixelRatio in
  {| canvas_width := rect_width * dpr; canvas_height := rect_height * dpr;
     ctx := ctx this ++ [scale dpr dpr];
     squares := squares this; time := time this;
     mouseX := mouseX this; mouseY := mouseY this;
     isRunning := isRunning this;
     width := rect_width; height := rect_height;
     pending := pending this |}.

Definition init (rect_width rect_height devicePixelRatio : R)
  (rnd : nat -> R) (this : Engine) : Engine :=
  createSquares rnd (resize rect_width rect_height devicePixelRatio this).

(** ** The frame loop and the listeners *)

(** [this.isRunning = b]. *)
Definition set_running (b : bool) (this : Engine) : Engine :=
  {| canvas_width := canvas_width this; canvas_height := canvas_height this;
     ctx := ctx this; squares := squares this; time := time this;
     mouseX := mouseX this; mouseY := mouseY this;
     isRunning := b;
     width := width this; height := height this;
     pending := pending this |}.

(** [this.mouseX = mx; this.mouseY = my]. *)
Definition set_mouse (mx my : R) (this : Engine) : Engine :=
  {| canvas_width := canvas_width this; canvas_height := canvas_height this;
     ctx := ctx this; squares := squares this; time := time this;
     mouseX := mx; mouseY := my;
     isRunning := isRunning this;
     width := width this; height := height this;
     pending := pending this |}.

(** The engine after the calls [cmds] on its context and with [n]
    outstanding frame requests. *)
Definition painted (cmds : list Cmd) (n : nat) (this : Engine) : Engine :=
  {| canvas_width := canvas_width this; canvas_height := canvas_height this;
     ctx := ctx this ++ cmds; squares := squares this; time := time this;
     mouseX := mouseX this; mouseY := mouseY this;
     isRunning := isRunning this;
     width := width this; height := height this;
     pending := n |}.

Definition animate (this : Engine) : Result Engine :=
  if negb (isRunning this) then Ok this
  else
    this1 <- update this ;;
    cmds <- draw this1 ;;
    (* requestAnimationFrame(() => this.animate()) *)
    Ok (painted cmds (S (pending this1)) this1).

Definition destroy (this : Engine) : Engine := set_running false this.

(** What the host can do to a constructed engine. *)
Inductive Event : Type :=
| Frame                                 (* a requested frame is run *)
| Resize (rect_width rect_height devicePixelRatio : R) (rnd : nat -> R)
| MouseMove (clientX clientY rect_left rect_top : R)
| VisibilityChange (hidden : bool)
| Destroy.

(** The listener or callback that an event runs.  A frame runs only if
    one was requested. *)
Definition step (e : Event) (this : Engine) : Result Engine :=
  match e with
  | Frame =>
      match pending this with
      | O => Ok this
      | S n => animate (painted [] n this)
      end
  | Resize w h d rnd => Ok (init w h d rnd this)
  | MouseMove clientX clientY rect_left rect_top =>
      Ok (set_mouse (clientX - rect_left) (clientY - rect_top) this)
  | VisibilityChange hidden =>
      let this1 := set_running (negb hidden) this in
      if isRunning this1 then animate this1 else Ok this1
  | Destroy => Ok (destroy this)
  end.

Fixpoint run (evs : list Event) (this : Engine) : Result Engine :=
  match evs with
  | [] => Ok this
  | e :: evs' => this1 <- step e this ;; run evs' this1
  end.

(** The fields set by the constructor before [this.init()].  The sizes,
    which nothing reads before [resize] has measured them, stand at 0. *)
Definition fresh : Engine :=
  {| canvas_width := 0; canvas_height := 0; ctx := [];
     squares := []; time := 0;
     mouseX := 0; mouseY := 0; isRunning := true;
     width := 0; height := 0; pending := 0 |}.

(** [new OrigamiAnimation(canvas)]. *)
Definition constructor (rect_width rect_height devicePixelRatio : R)
  (rnd : nat -> R) : Result Engine :=
  animate (init rect_width rect_height devicePixelRatio rnd fresh).

(** [n] calls of [update] in a row. *)
Fixpoint ticks (n : nat) (this : Engine) : Result Engine :=
  match n with
  | O => Ok this
  | S n' => this1 <- update this ;; ticks n' this1
  end.

(** * Vocabulary of the statements *)

(** ** One element, one tick *)

(** The names below only abbreviate subterms of [update_square]. *)

(** Displayed position, as recomputed by the tick of time [time this]. *)
Definition osc_x (this : Engine) (sq : Square) : R :=
  baseX sq + sin (INR (time this) * 0.001 * speedX sq + phaseX sq) * amplitudeX sq.
Definition osc_y (this : Engine) (sq : Square) : R :=
  baseY sq + cos (INR (time this) * 0.001 * speedY sq + phaseY sq) * amplitudeY sq.

(** Drift of element [i] at the tick of time [time this]. *)
Definition drift_x (this : Engine) (i : nat) : R :=
  sin (INR (time this) * 0.0003 + INR i) * 0.1.
Definition drift_y (this : Engine) (i : nat) : R :=
  cos (INR (time this) * 0.0003 + INR i) * 0.1.

(** The two wrap tests on a coordinate [v], for a surface of [extent]. *)
Definition wrap (extent sz v : R) : R :=
  let v2 := if ltb v (- sz) then extent + sz else v in
  if gtb v2 (extent + sz) then - sz else v2.

(** The fold phase after the fold animation step. *)
Definition next_fold (sq : Square) : R :=
  if gtb (foldState sq + foldSpeed sq) (2 * PI) then 0
  else foldState sq + foldSpeed sq.

(** Distance from the displayed position to the pointer. *)
Definition pointer_dist (this : Engine) (sq : Square) : R :=
  let dx := mouseX this - osc_x this sq in
  let dy := mouseY this - osc_y this sq in
  sqrt (dx * dx + dy * dy).

(** The test of the mouse interaction. *)
Definition repelled (this : Engine) (sq : Square) : bool :=
  ltb (pointer_dist this sq) 150 && gtb (pointer_dist this sq) 0.

(** [const force]. *)
Definition force (this : Engine) (sq : Square) : R :=
  (150 - pointer_dist this sq) / 150.

(** What the mouse interaction subtracts from the base position. *)
Definition push_x (this : Engine) (sq : Square) : R :=
  if repelled this sq
  then (mouseX this - osc_x this sq) / pointer_dist this sq * force this sq * 0.5
  else 0.
Definition push_y (this : Engine) (sq : Square) : R :=
  if repelled this sq
  then (mouseY this - osc_y this sq) / pointer_dist this sq * force this sq * 0.5
  else 0.

(** The element that the callback returns ([update_square_ok]). *)
Definition updated (this : Engine) (i : nat) (sq : Square) : Square :=
  {| x := osc_x this sq; y := osc_y this sq; size := size sq;
     rotation := rotation sq + rotationSpeed sq;
     rotationSpeed := rotationSpeed sq;
     color := color sq; opacity := opacity sq;
     phaseX := phaseX sq; phaseY := phaseY sq;
     speedX := speedX sq; speedY := speedY sq;
     amplitudeX := amplitudeX sq; amplitudeY := amplitudeY sq;
     baseX := wrap (width this) (size sq) (baseX sq + drift_x this i)
              - push_x this sq;
     baseY := wrap (height this) (size sq) (baseY sq + drift_y this i)
              - push_y this sq;
     foldState := next_fold sq; foldSpeed := foldSpeed sq;
     layer := layer sq |}.

(** ** The whole set *)

(** [f] on every element with its index, the first index being [i]. *)
Fixpoint map_from (f : nat -> Square -> Square) (i : nat) (l : list Square)
  : list Square :=
  match l with
  | [] => []
  | a :: l' => f i a :: map_from f (S i) l'
  end.

(** The engine between [this.time++] and the [forEach]. *)
Definition ticked (this : Engine) : Engine :=
  with_squares this (S (time this)) (squares this).

(** The engine that [update] returns ([update_ok]). *)
Definition after_update (this : Engine) : Engine :=
  with_squares (ticked this) (S (time this))
    (map_from (updated (ticked this)) 0 (squares this)).

(** The engine that [ticks n] returns ([ticks_ok]). *)
Fixpoint after_ticks (n : nat) (this : Engine) : Engine :=
  match n with
  | O => this
  | S n' => after_ticks n' (after_update this)
  end.

(** ** Predicates *)

(** A measured surface: no side of a bounding rectangle is negative. *)
Definition nonneg_surface (this : Engine) : Prop :=
  0 <= width this /\ 0 <= height this.

(** Ascending layers. *)
Definition layer_le (a b : Square) : Prop := (layer a <= layer b)%Z.

(** What [Math.random] promises about each value it returns. *)
Definition random (rnd : nat -> R) : Prop := forall n, 0 <= rnd n < 1.

(** The ranges of the fields of a new element. *)
Record created (this : Engine) (sq : Square) : Prop := {
  created_x : 0 <= x sq <= width this;
  created_y : 0 <= y sq <= height this;
  created_size : 20 <= size sq < 80;
  created_rotationSpeed : -0.01 <= rotationSpeed sq < 0.01;
  created_baseX : 0 <= baseX sq <= width this;
  created_baseY : 0 <= baseY sq <= height this;
  created_foldState : 0 <= foldState sq < 1;
  created_foldSpeed : 0.005 <= foldSpeed sq < 0.015;
  created_layer : (0 <= layer sq <= 2)%Z
}.

(** The padded bounds of the surface. *)
Definition padded (this : Engine) (sq : Square) : Prop :=
  (- size sq <= baseX sq <= width this + size sq) /\
  (- size sq <= baseY sq <= height this + size sq).

(** Less than 0.5 outside the padded bounds. *)
Definition nearly_padded (this : Engine) (sq : Square) : Prop :=
  (- size sq - 0.5 < baseX sq < width this + size sq + 0.5) /\
  (- size sq - 0.5 < baseY sq < height this + size sq + 0.5).

(** What holds of an element from its creation on. *)
Record sound (this : Engine) (sq : Square) : Prop := {
  sound_size : 20 <= size sq < 80;
  sound_base : nearly_padded this sq;
  sound_foldState : 0 <= foldState sq <= 2 * PI;
  sound_foldSpeed : 0.005 <= foldSpeed sq < 0.015;
  sound_rotationSpeed : -0.01 <= rotationSpeed sq < 0.01
}.

(** What holds of an engine from its construction on. *)
Definition invariant (this : Engine) : Prop :=
  nonneg_surface this /\ Forall (sound this) (squares this).

(** Sizes and random values that the host can really supply. *)
Definition valid_event (e : Event) : Prop :=
  match e with
  | Resize w h _ rnd => 0 <= w /\ 0 <= h /\ random rnd
  | _ => True
  end.

(** The points that an engine's surface shows. *)
Definition on_surface (this : Engine) (px py : R) : Prop :=
  0 <= px < width this /\ 0 <= py < height this.

(** The fields that [update] reads. *)
Definition same_motion (a b : Engine) : Prop :=
  squares a = squares b /\ time a = time b /\
  mouseX a = mouseX b /\ mouseY a = mouseY b /\
  width a = width b /\ height a = height b.

(** Any event but a mouse move. *)
Definition no_mouse_move (e : Event) : Prop :=
  match e with
  | MouseMove _ _ _ _ => False
  | _ => True
  end.

(** ** Sample engines and random values *)

(** An element 0.2 inside the right padded edge of an 800 by 600 surface,
    the pointer 30 to its left. *)
Definition edge_square : Square :=
  {| x := 819.8; y := 300; size := 20;
     rotation := 0; rotationSpeed := 0.005;
     color := Some (colors pink); opacity := 0.3;
     phaseX := PI - 0.0005; phaseY := PI / 2 - 0.0005;
     speedX := 0.5; speedY := 0.5;
     amplitudeX := 20; amplitudeY := 20;
     baseX := 819.8; baseY := 300;
     foldState := 0.5; foldSpeed := 0.01;
     layer := 0 |}.

Definition edge_engine : Engine :=
  {| canvas_width := 800; canvas_height := 600; ctx := [];
     squares := [edge_square]; time := 0;
     mouseX := 789.8; mouseY := 300; isRunning := true;
     width := 800; height := 600; pending := 1 |}.

(** An element on the right padded edge of an 800 by 600 surface, the
    pointer at the top-left corner. *)
Definition rim_square : Square :=
  {| x := 820; y := 300; size := 20;
     rotation := 0; rotationSpeed := 0.005;
     color := Some (colors pink); opacity := 0.3;
     phaseX := PI - 0.0005; phaseY := PI / 2 - 0.0005;
     speedX := 0.5; speedY := 0.5;
     amplitudeX := 20; amplitudeY := 20;
     baseX := 820; baseY := 300;
     foldState := 0.5; foldSpeed := 0.01;
     layer := 0 |}.

Definition rim_engine : Engine :=
  {| canvas_width := 800; canvas_height := 600; ctx := [];
     squares := [rim_square]; time := 0;
     mouseX := 0; mouseY := 0; isRunning := true;
     width := 800; height := 600; pending := 1 |}.

(** The engine after [init] on an 800 by 600 surface when every call of
    [Math.random] returns 0: each element is [origin_square]. *)
Definition origin_engine : Engine := init 800 600 1 (fun _ => 0) fresh.

Definition origin_square : Square :=
  new_square (resize 800 600 1 fresh) (fun _ => 0) 0.

(** Values of [Math.random] for which every element is created at
    [(0, 300)] with size 20. *)
Definition chase_rnd (n : nat) : R :=
  match (n mod draws_per_square)%nat with
  | 14%nat => 0.5
  | _ => 0
  end.

(** ** A pointer that follows the first element *)

(** A mouse move to the point [a] to the right of where the next tick
    displays the first element. *)
Definition aim (a : R) (this : Engine) : Event :=
  match squares this with
  | [] => MouseMove 0 0 0 0
  | sq :: _ =>
      MouseMove (osc_x (ticked this) sq + a) (osc_y (ticked this) sq) 0 0
  end.

(** The distance at which the push of the next tick is [c] more than the
    drift of the first element in that tick. *)
Definition pace (c : R) (this : Engine) : R :=
  150 - 300 * (c + drift_x (ticked this) 0).

(** A running engine on the 800 by 600 surface whose first element has
    size 20 and a base abscissa in the given range. *)
Definition chased (lo hi : R) (s : Engine) : Prop :=
  isRunning s = true /\ pending s = 1%nat /\
  width s = 800 /\ height s = 600 /\
  exists sq rest,
    squares s = sq :: rest /\ size sq = 20 /\ lo < baseX sq <= hi.

(** * The fold animation on binary64 numbers *)

(** [Math.PI]. *)
Definition Math_PI : float := 0x1.921fb54442d18p+1%float.

(** [foldState: Math.random()] of [createSquares], for the value [r] that
    [Math.random] returns. *)
Definition foldState_f64 (r : float) : float := r.

(** [foldSpeed: 0.005 + Math.random() * 0.01] of [createSquares]. *)
Definition foldSpeed_f64 (r : float) : float :=
  PrimFloat.add 0x1.47ae147ae147bp-8 (PrimFloat.mul r 0x1.47ae147ae147bp-7).

(** The fold animation of [update]:
    [foldState += foldSpeed; if (foldState > 2 * Math.PI) foldState = 0]. *)
Definition fold_animation_f64 (foldState foldSpeed : float) : float :=
  let foldState1 := PrimFloat.add foldState foldSpeed in
  if PrimFloat.ltb (PrimFloat.mul 2 Math_PI) foldState1 then 0%float
  else foldState1.

(** The fold phase after [n] ticks. *)
Fixpoint fold_ticks_f64 (n : nat) (foldState foldSpeed : float) : float :=
  match n with
  | O => foldState
  | S n' => fold_ticks_f64 n' (fold_animation_f64 foldState foldSpeed) foldSpeed
  end.

(** * The page scripts (src/unnamed/part_000) *)

(** ** isValidEmail *)

(** A JavaScript string is the list of its UTF-16 code units. *)
Definition JsString : Type := list N.

Definition of_string (s : string) : JsString :=
  map Ascii.N_of_ascii (list_ascii_of_string s).

(** The class [\s]: the white space and line terminator code units. *)
Definition is_space (c : N) : bool :=
  match c with
  | 9 | 10 | 11 | 12 | 13 | 32 | 160 | 5760
  | 8232 | 8233 | 8239 | 8287 | 12288 | 65279 => true
  | _ => (8192 <=? c) && (c <=? 8202)
  end%N.

Definition at_sign : N := 64.
Definition full_stop : N := 46.

(** The class [[^\s@]]. *)
Definition not_space_at (c : N) : bool :=
  negb (is_space c) && negb (c =? at_sign)%N.

(** The pieces of a pattern: a class, and a class under [+]. *)
Inductive Item : Type :=
| One (p : N -> bool)
| Many (p : N -> bool).

(** One or more code units of the class, then [k] on what is left; the
    longest run is tried first. *)
Fixpoint many (p : N -> bool) (k : JsString -> bool) (s : JsString) : bool :=
  match s with
  | [] => false
  | c :: s' => p c && (many p k s' || k s')
  end.

(** [/^r$/.test(s)]: the pieces match all of [s]. *)
Fixpoint test (r : list Item) (s : JsString) : bool :=
  match r with
  | [] => match s with [] => true | _ :: _ => false end
  | One p :: r' =>
      match s with
      | [] => false
      | c :: s' => p c && test r' s'
      end
  | Many p :: r' => many p (test r') s
  end.

(** [/^[^\s@]+@[^\s@]+\.[^\s@]+$/]. *)
Definition emailRegex : list Item :=
  [ Many not_space_at; One (N.eqb at_sign); Many not_space_at;
    One (N.eqb full_stop); Many not_space_at ].

Definition isValidEmail (email : JsString) : bool := test emailRegex email.

(** ** Keyboard navigation of a checkbox group *)

(** The options of one [.poll-options] group: whether the input of each is
    checked, and which option has the focus, if one has. *)
Record Group : Type := mkGroup {
  checked : list bool;
  focus : option Z
}.

(** [input.checked = !input.checked] for the input of option [i]. *)
Fixpoint toggle (i : nat) (l : list bool) : list bool :=
  match l, i with
  | [], _ => []
  | b :: l', O => negb b :: l'
  | b :: l', S i' => b :: toggle i' l'
  end.

(** The [keydown] listener of the option at [index], for [e.key = key]:
    the group after it, and whether [e.preventDefault()] was called. *)
Definition keydown (index : Z) (key : string) (g : Group) : Group * bool :=
  let n := Z.of_nat (List.length (checked g)) in
  let toggles := (key =? " ")%string || (key =? "Enter")%string in
  let g1 := if toggles
            then {| checked := toggle (Z.to_nat index) (checked g);
                    focus := focus g |}
            else g in
  if (key =? "ArrowDown")%string then
    ({| checked := checked g1; focus := Some (Z.rem (index + 1) n) |}, true)
  else if (key =? "ArrowUp")%string then
    ({| checked := checked g1; focus := Some (Z.rem (index - 1 + n) n) |}, true)
  else (g1, toggles).

(** * Vocabulary of the further properties *)

(** The parameters that [createSquares] draws and nothing changes, in the
    ranges it draws them from. *)
Record parameters (sq : Square) : Prop := {
  par_size : 20 <= size sq < 80;
  par_rotationSpeed : -0.01 <= rotationSpeed sq < 0.01;
  par_color : exists k, In k colorKeys /\ color sq = Some (colors k);
  par_opacity : 0.1 <= opacity sq < 0.5;
  par_phaseX : 0 <= phaseX sq < 2 * PI;
  par_phaseY : 0 <= phaseY sq < 2 * PI;
  par_speedX : 0.3 <= speedX sq < 0.8;
  par_speedY : 0.3 <= speedY sq < 0.8;
  par_amplitudeX : 20 <= amplitudeX sq < 60;
  par_amplitudeY : 20 <= amplitudeY sq < 60;
  par_foldSpeed : 0.005 <= foldSpeed sq < 0.015;
  par_layer : (0 <= layer sq <= 2)%Z
}.

(** The same with every range closed: the limits of the expressions of
    [createSquares], the upper ones included. *)
Record parameters_within (sq : Square) : Prop := {
  within_size : 20 <= size sq <= 80;
  within_rotationSpeed : -0.01 <= rotationSpeed sq <= 0.01;
  within_color : exists k, In k colorKeys /\ color sq = Some (colors k);
  within_opacity : 0.1 <= opacity sq <= 0.5;
  within_phaseX : 0 <= phaseX sq <= 2 * PI;
  within_phaseY : 0 <= phaseY sq <= 2 * PI;
  within_speedX : 0.3 <= speedX sq <= 0.8;
  within_speedY : 0.3 <= speedY sq <= 0.8;
  within_amplitudeX : 20 <= amplitudeX sq <= 60;
  within_amplitudeY : 20 <= amplitudeY sq <= 60;
  within_foldSpeed : 0.005 <= foldSpeed sq <= 0.015;
  within_layer : (0 <= layer sq <= 2)%Z
}.

(** Two elements with the same creation-time parameters. *)
Definition same_parameters (a b : Square) : Prop :=
  size a = size b /\ rotationSpeed a = rotationSpeed b /\
  color a = color b /\ opacity a = opacity b /\
  phaseX a = phaseX b /\ phaseY a = phaseY b /\
  speedX a = speedX b /\ speedY a = speedY b /\
  amplitudeX a = amplitudeX b /\ amplitudeY a = amplitudeY b /\
  foldSpeed a = foldSpeed b /\ layer a = layer b.

(** The displayed position is less than 60.5 outside the padded bounds. *)
Definition shown_near (this : Engine) (sq : Square) : Prop :=
  (- size sq - 60.5 < x sq < width this + size sq + 60.5) /\
  (- size sq - 60.5 < y sq < height this + size sq + 60.5).

(** The fields that a property of the scene may depend on. *)
Definition same_scene (a b : Engine) : Prop :=
  squares a = squares b /\ width a = width b /\ height a = height b.

(** Calls that neither save, restore nor transform the context. *)
Definition plain (c : Cmd) : bool :=
  match c with
  | save | restore | translate _ _ | rotate _ | scale _ _ => false
  | _ => true
  end.

(** Whether, from nesting depth [d] of [save], every [restore] closes a
    [save], every transform is inside a [save], and the depth is 0 at the
    end. *)
Fixpoint scoped (d : nat) (cmds : list Cmd) : bool :=
  match cmds with
  | [] => Nat.eqb d 0
  | save :: rest => scoped (S d) rest
  | restore :: rest =>
      match d with
      | O => false
      | S d' => scoped d' rest
      end
  | translate _ _ :: rest | rotate _ :: rest | scale _ _ :: rest =>
      match d with
      | O => false
      | S _ => scoped d rest
      end
  | _ :: rest => scoped d rest
  end.

(** A show event. *)
Definition is_show (e : Event) : Prop :=
  match e with
  | VisibilityChange false => True
  | _ => False
  end.

Definition is_resize (e : Event) : Prop :=
  match e with
  | Resize _ _ _ _ => True
  | _ => False
  end.

(** [k] times hiding and showing the page. *)
Fixpoint hide_show (k : nat) : list Event :=
  match k with
  | O => []
  | S k' => VisibilityChange true :: VisibilityChange false :: hide_show k'
  end.

(** An element with other values for [x] and [y]. *)
Definition with_xy (a b : R) (sq : Square) : Square :=
  {| x := a; y := b; size := size sq;
     rotation := rotation sq; rotationSpeed := rotationSpeed sq;
     color := color sq; opacity := opacity sq;
     phaseX := phaseX sq; phaseY := phaseY sq;
     speedX := speedX sq; speedY := speedY sq;
     amplitudeX := amplitudeX sq; amplitudeY := amplitudeY sq;
     baseX := baseX sq; baseY := baseY sq;
     foldState := foldState sq; foldSpeed := foldSpeed sq;
     layer := layer sq |}.

(** What holds of the scene of an engine from its construction on. *)
Definition scene_invariant (this : Engine) : Prop :=
  invariant this /\
  List.length (squares this) = numSquares /\
  StronglySorted layer_le (squares this) /\
  Forall parameters (squares this) /\
  Forall (shown_near this) (squares this).

(** The events that may run a tick: a frame and a show. *)
Definition may_tick (e : Event) : bool :=
  match e with
  | Frame | VisibilityChange false => true
  | _ => false
  end.

(** The abscissas (ordinates) of the first [n] grid lines. *)
Definition grid_positions (n : nat) : list R :=
  map (fun j => INR j * gridSize) (seq 0 n).

(** Two elements that differ at most in [x] and [y]. *)
Definition same_but_xy (a b : Square) : Prop := with_xy 0 0 a = with_xy 0 0 b.

(** An element 6 before the end of its fold cycle, on a surface of its
    own. *)
Definition late_square : Square :=
  {| x := 400; y := 300; size := 20;
     rotation := 0; rotationSpeed := 0.005;
     color := Some (colors green); opacity := 0.3;
     phaseX := 0; phaseY := 0;
     speedX := 0.5; speedY := 0.5;
     amplitudeX := 20; amplitudeY := 20;
     baseX := 400; baseY := 300;
     foldState := 2 * PI - 6; foldSpeed := 0.01;
     layer := 0 |}.

Definition late_engine : Engine :=
  {| canvas_width := 800; canvas_height := 600; ctx := [];
     squares := [late_square]; time := 0;
     mouseX := 0; mouseY := 0; isRunning := true;
     width := 800; height := 600; pending := 1 |}.

(** * Properties *)

(** ** Arithmetic of the model *)

Lemma ltb_true (a b : R) : ltb a b = true <-> a < b.
Proof. unfold ltb; destruct (Rlt_dec a b); split; intros; auto; try discriminate; tauto. Qed.

Lemma ltb_false (a b : R) : ltb a b = false <-> b <= a.
Proof. unfold ltb; destruct (Rlt_dec a b); split; intros; auto; try discriminate; lra. Qed.

Lemma gtb_true (a b : R) : gtb a b = true <-> b < a.
Proof. apply ltb_true. Qed.

Lemma gtb_false (a b : R) : gtb a b = false <-> a <= b.
Proof. apply ltb_false. Qed.

Lemma div_ok (a b : R) : b <> 0 -> div a b = Ok (a / b).
Proof. intros Hb; unfold div; destruct (Req_dec_T b 0); [contradiction | reflexivity]. Qed.

Lemma div_zero (a : R) : div a 0 = Raise DivisionByZero.
Proof. unfold div; destruct (Req_dec_T 0 0); [reflexivity | contradiction]. Qed.

Lemma PI_gt_3 : 3 < PI.
Proof. pose proof PI2_3_2. lra. Qed.


Lemma INR_66 : INR 66 = 66.
Proof. rewrite INR_IZR_INZ. reflexivity. Qed.

(** A coordinate of a vector is at most the length of the vector. *)
Lemma coordinate_le_norm (a b : R) : - sqrt (a * a + b * b) <= a <= sqrt (a * a + b * b).
Proof.
  pose proof (sqrt_pos (a * a + b * b)) as Hpos.
  pose proof (sqrt_sqrt (a * a + b * b)) as Hsq.
  assert (0 <= a * a + b * b) as Hnn by nra.
  specialize (Hsq Hnn). nra.
Qed.

Lemma unit_coordinate (a d : R) : 0 < d -> - d <= a <= d -> -1 <= a / d <= 1.
Proof.
  intros Hd Ha. unfold Rdiv.
  pose proof (Rinv_0_lt_compat d Hd) as Hinv.
  assert (d * / d = 1) as Hone by (apply Rinv_r; lra).
  nra.
Qed.

(** The offset [k * (a / d, b / d)] has length [k] when [d] is the length
    of [(a, b)]. *)
Lemma scaled_unit_norm (a b k : R) :
  0 <= k -> 0 < sqrt (a * a + b * b) ->
  sqrt ((k * (a / sqrt (a * a + b * b))) * (k * (a / sqrt (a * a + b * b)))
        + (k * (b / sqrt (a * a + b * b))) * (k * (b / sqrt (a * a + b * b))))
  = k.
Proof.
  intros Hk Hd. set (d := sqrt (a * a + b * b)) in *.
  assert (d * d = a * a + b * b) as Hdd.
  { apply sqrt_sqrt. nra. }
  replace (k * (a / d) * (k * (a / d)) + k * (b / d) * (k * (b / d)))
    with (k * k * ((a * a + b * b) / (d * d))) by (field; lra).
  rewrite <- Hdd. replace (d * d / (d * d)) with 1 by (field; lra).
  rewrite Rmult_1_r. now apply sqrt_square.
Qed.

(** ** One element, one tick *)

Lemma repelled_true (this : Engine) (sq : Square) :
  repelled this sq = true <-> 0 < pointer_dist this sq < 150.
Proof.
  unfold repelled; rewrite andb_true_iff, ltb_true, gtb_true; tauto.
Qed.

Lemma repelled_false (this : Engine) (sq : Square) :
  repelled this sq = false <->
  (150 <= pointer_dist this sq \/ pointer_dist this sq <= 0).
Proof.
  unfold repelled; rewrite andb_false_iff, ltb_false, gtb_false; tauto.
Qed.

(** The callback never raises, and [updated] is what it returns. *)
Lemma update_square_ok (this : Engine) (i : nat) (sq : Square) :
  update_square this i sq = Ok (updated this i sq).
Proof.
  unfold update_square, updated, push_x, push_y.
  fold (osc_x this sq) (osc_y this sq) (drift_x this i) (drift_y this i).
  fold (pointer_dist this sq). fold (repelled this sq).
  destruct (repelled this sq) eqn:Hrep.
  - apply repelled_true in Hrep.
    rewrite div_ok by lra. cbn [bind].
    rewrite !div_ok by lra. cbn [bind].
    unfold wrap, next_fold, force. reflexivity.
  - unfold wrap, next_fold. do 2 f_equal; lra.
Qed.

Lemma wrap_bounds (extent sz v : R) :
  0 <= extent -> 0 <= sz -> - sz <= wrap extent sz v <= extent + sz.
Proof.
  intros He Hs. unfold wrap.
  destruct (ltb v (- sz)) eqn:E1.
  - replace (gtb (extent + sz) (extent + sz)) with false
      by (symmetry; apply gtb_false; lra). lra.
  - apply ltb_false in E1.
    destruct (gtb v (extent + sz)) eqn:E2; [lra|].
    apply gtb_false in E2. lra.
Qed.

(** Inside the padded bounds the wrap changes nothing. *)
Lemma wrap_inside (extent sz v : R) :
  - sz <= v <= extent + sz -> wrap extent sz v = v.
Proof.
  intros Hv. unfold wrap.
  replace (ltb v (- sz)) with false by (symmetry; apply ltb_false; lra).
  replace (gtb v (extent + sz)) with false by (symmetry; apply gtb_false; lra).
  reflexivity.
Qed.

(** Past the far padded edge the wrap moves to the near one. *)
Lemma wrap_above (extent sz v : R) :
  - sz <= v -> extent + sz < v -> wrap extent sz v = - sz.
Proof.
  intros Hlo Hhi. unfold wrap.
  replace (ltb v (- sz)) with false by (symmetry; apply ltb_false; lra).
  replace (gtb v (extent + sz)) with true by (symmetry; apply gtb_true; lra).
  reflexivity.
Qed.

Lemma drift_x_small (this : Engine) (i : nat) : -0.1 <= drift_x this i <= 0.1.
Proof.
  unfold drift_x.
  pose proof (SIN_bound (INR (time this) * 0.0003 + INR i)). lra.
Qed.

(** The mouse interaction moves a coordinate by less than 0.5. *)
Lemma push_x_small (this : Engine) (sq : Square) : -0.5 < push_x this sq < 0.5.
Proof.
  unfold push_x. destruct (repelled this sq) eqn:E; [|lra].
  apply repelled_true in E. unfold force.
  pose proof (coordinate_le_norm (mouseX this - osc_x this sq)
                (mouseY this - osc_y this sq)) as Hc.
  fold (pointer_dist this sq) in Hc.
  pose proof (unit_coordinate _ _ (proj1 E) Hc) as Hu.
  assert (0 < (150 - pointer_dist this sq) / 150 < 1) as Hf by lra.
  nra.
Qed.

Lemma push_y_small (this : Engine) (sq : Square) : -0.5 < push_y this sq < 0.5.
Proof.
  unfold push_y. destruct (repelled this sq) eqn:E; [|lra].
  apply repelled_true in E. unfold force.
  pose proof (coordinate_le_norm (mouseY this - osc_y this sq)
                (mouseX this - osc_x this sq)) as Hc.
  replace ((mouseY this - osc_y this sq) * (mouseY this - osc_y this sq)
           + (mouseX this - osc_x this sq) * (mouseX this - osc_x this sq))
    with ((mouseX this - osc_x this sq) * (mouseX this - osc_x this sq)
          + (mouseY this - osc_y this sq) * (mouseY this - osc_y this sq))
    in Hc by ring.
  fold (pointer_dist this sq) in Hc.
  pose proof (unit_coordinate _ _ (proj1 E) Hc) as Hu.
  assert (0 < (150 - pointer_dist this sq) / 150 < 1) as Hf by lra.
  nra.
Qed.

(** Where the pointer is not to the right of the displayed position, the
    mouse interaction does not move the base position to the left. *)
Lemma push_x_sign (this : Engine) (sq : Square) :
  mouseX this - osc_x this sq <= 0 -> push_x this sq <= 0.
Proof.
  intros Hdx. unfold push_x. destruct (repelled this sq) eqn:E; [|lra].
  apply repelled_true in E. unfold force.
  pose proof (Rinv_0_lt_compat _ (proj1 E)) as Hinv.
  assert (0 < (150 - pointer_dist this sq) / 150) as Hf by lra.
  unfold Rdiv at 1.
  assert ((mouseX this - osc_x this sq) * / pointer_dist this sq <= 0) by nra.
  nra.
Qed.

Lemma next_fold_bounds (sq : Square) :
  0 <= foldState sq -> 0 <= foldSpeed sq -> 0 <= next_fold sq <= 2 * PI.
Proof.
  intros Hs Hv. unfold next_fold. pose proof PI_gt_3.
  destruct (gtb (foldState sq + foldSpeed sq) (2 * PI)) eqn:E; [lra|].
  apply gtb_false in E. lra.
Qed.

(** ** One tick of the whole set *)

Lemma forEach_ok (this : Engine) (l : list Square) :
  forall i, forEach (update_square this) i l = Ok (map_from (updated this) i l).
Proof.
  induction l as [|a l IH]; intros i; cbn [forEach map_from]; [reflexivity|].
  rewrite update_square_ok; cbn [bind]. rewrite IH. reflexivity.
Qed.

Lemma update_ok (this : Engine) : update this = Ok (after_update this).
Proof.
  unfold update, after_update. cbn zeta.
  change (squares (with_squares this (S (time this)) (squares this)))
    with (squares this).
  fold (ticked this). rewrite forEach_ok. reflexivity.
Qed.

Lemma length_map_from (f : nat -> Square -> Square) (l : list Square) :
  forall i, List.length (map_from f i l) = List.length l.
Proof. induction l; intros; cbn; [reflexivity | now rewrite IHl]. Qed.

Lemma nth_error_map_from (f : nat -> Square -> Square) (l : list Square) :
  forall i n,
    nth_error (map_from f i l) n = option_map (f (i + n)%nat) (nth_error l n).
Proof.
  induction l as [|a l IH]; intros i [|n]; cbn; try reflexivity.
  - now rewrite Nat.add_0_r.
  - rewrite IH. now rewrite Nat.add_succ_r.
Qed.

Lemma Forall_map_from (P Q : Square -> Prop) (f : nat -> Square -> Square)
  (l : list Square) :
  (forall i a, P a -> Q (f i a)) ->
  forall i, Forall P l -> Forall Q (map_from f i l).
Proof.
  intros HPQ. induction l as [|a l IH]; intros i HP; cbn; constructor;
    inversion HP; subst; auto.
Qed.

Lemma nth_error_after_update (this : Engine) (n : nat) :
  nth_error (squares (after_update this)) n
  = option_map (updated (ticked this) n) (nth_error (squares this) n).
Proof. unfold after_update; cbn. apply nth_error_map_from. Qed.

Lemma same_motion_refl (a : Engine) : same_motion a a.
Proof. repeat split. Qed.

Lemma same_motion_trans (a b c : Engine) :
  same_motion a b -> same_motion b c -> same_motion a c.
Proof.
  intros (H1 & H2 & H3 & H4 & H5 & H6) (K1 & K2 & K3 & K4 & K5 & K6).
  repeat split; congruence.
Qed.

Lemma after_update_ext (a b : Engine) :
  same_motion a b -> same_motion (after_update a) (after_update b).
Proof.
  destruct a, b. unfold same_motion. cbn.
  intros (-> & -> & -> & -> & -> & ->). repeat split.
Qed.

(** ** Consecutive ticks *)

Lemma ticks_ok (n : nat) : forall this, ticks n this = Ok (after_ticks n this).
Proof.
  induction n as [|n IH]; intros this; cbn [ticks after_ticks]; [reflexivity|].
  rewrite update_ok. cbn [bind]. apply IH.
Qed.

Lemma length_after_ticks (n : nat) :
  forall this,
    List.length (squares (after_ticks n this)) = List.length (squares this).
Proof.
  induction n as [|n IH]; intros this; cbn [after_ticks]; [reflexivity|].
  rewrite IH. unfold after_update. cbn [with_squares squares].
  apply length_map_from.
Qed.

(** A property of the elements that is indexed by the number of ticks. *)
Lemma Forall_after_ticks (Q : nat -> Square -> Prop) (bound : nat) :
  (forall k this i sq, (k < bound)%nat -> Q k sq -> Q (S k) (updated this i sq)) ->
  forall n k this,
    (k + n <= bound)%nat ->
    Forall (Q k) (squares this) ->
    Forall (Q (k + n)%nat) (squares (after_ticks n this)).
Proof.
  intros HQ. induction n as [|n IH]; intros k this Hk HF; cbn [after_ticks].
  - now rewrite Nat.add_0_r.
  - replace (k + S n)%nat with (S k + n)%nat by lia.
    apply IH; [lia|].
    unfold after_update. cbn [with_squares squares].
    eapply Forall_map_from; [|exact HF].
    intros i sq Hsq. apply HQ; [lia | exact Hsq].
Qed.

Lemma nth_error_after_ticks (n : nat) :
  forall this i sq,
    nth_error (squares this) i = Some sq ->
    exists sq',
      nth_error (squares (after_ticks n this)) i = Some sq' /\
      rotationSpeed sq' = rotationSpeed sq /\
      rotation sq' = rotation sq + INR n * rotationSpeed sq.
Proof.
  induction n as [|n IH]; intros this i sq Hi; cbn [after_ticks].
  - exists sq. cbn [INR]. repeat split; [exact Hi | lra].
  - destruct (IH (after_update this) i (updated (ticked this) i sq))
      as (sq' & Hn & Hv & Hr).
    { rewrite nth_error_after_update, Hi. reflexivity. }
    exists sq'. split; [exact Hn|]. cbn [updated rotationSpeed rotation] in *.
    split; [exact Hv|]. rewrite Hr, S_INR. lra.
Qed.

(** ** Drawing never raises on a surface of non-negative size *)

Lemma drawFoldedSquare_ok (sq : Square) :
  exists cmds, drawFoldedSquare sq = Ok cmds.
Proof.
  unfold drawFoldedSquare. cbn zeta.
  rewrite !div_ok by lra. cbn [bind]. eexists; reflexivity.
Qed.

Lemma draw_squares_ok (l : list Square) : exists cmds, draw_squares l = Ok cmds.
Proof.
  induction l as [|a l [cs IH]]; cbn [draw_squares]; [eexists; reflexivity|].
  destruct (drawFoldedSquare_ok a) as [ca Ha]. rewrite Ha, IH. cbn [bind].
  eexists; reflexivity.
Qed.

(** A loop that is given one more round than it needs ends normally. *)
Lemma grid_loop_enough (limit : R) (body : R -> list Cmd) :
  forall fuel v,
    limit - v <= INR fuel * gridSize ->
    exists cmds, grid_loop (S fuel) limit body v = Ok cmds.
Proof.
  unfold gridSize.
  induction fuel as [|fuel IH]; intros v Hv.
  - cbn [INR] in Hv. cbn [grid_loop].
    destruct (ltb v limit) eqn:E; [apply ltb_true in E; lra|].
    eexists; reflexivity.
  - rewrite S_INR in Hv.
    change (grid_loop (S (S fuel)) limit body v)
      with (if ltb v limit
            then rest <- grid_loop (S fuel) limit body (v + gridSize) ;;
                 Ok (body v ++ rest)
            else Ok []).
    destruct (ltb v limit); [|eexists; reflexivity].
    destruct (IH (v + gridSize)) as [rest Hrest]; [unfold gridSize; lra|].
    rewrite Hrest. cbn [bind]. eexists; reflexivity.
Qed.

Lemma grid_loop_total (limit : R) (body : R -> list Cmd) :
  exists cmds, grid_loop (grid_fuel limit) limit body 0 = Ok cmds.
Proof.
  unfold grid_fuel. apply grid_loop_enough.
  destruct (archimed (limit / gridSize)) as [Hup _].
  unfold gridSize in *.
  destruct (Z_lt_le_dec (up (limit / 80)) 0) as [Hneg|Hpos].
  - replace (Z.to_nat (up (limit / 80))) with 0%nat by lia.
    apply IZR_lt in Hneg. cbn [INR]. lra.
  - rewrite INR_IZR_INZ, Z2Nat.id by exact Hpos. lra.
Qed.

(** A loop up to a limit that is not positive has no round at all. *)
Lemma grid_loop_empty (limit : R) (body : R -> list Cmd) :
  limit <= 0 -> grid_loop (grid_fuel limit) limit body 0 = Ok [].
Proof.
  intros H. unfold grid_fuel. cbn [grid_loop].
  destruct (ltb 0 limit) eqn:E; [apply ltb_true in E; lra | reflexivity].
Qed.

Lemma drawGridLines_ok (this : Engine) :
  exists cmds, drawGridLines this = Ok cmds.
Proof.
  unfold drawGridLines, vertical_lines, horizontal_lines.
  destruct (grid_loop_total (width this) (vertical_line this)) as [vs ->].
  destruct (grid_loop_total (height this) (horizontal_line this)) as [hs ->].
  cbn [bind]. eexists; reflexivity.
Qed.

Lemma draw_ok (this : Engine) :
  nonneg_surface this -> exists cmds, draw this = Ok cmds.
Proof.
  intros [Hw Hh]. unfold draw.
  destruct (drawGridLines_ok this) as [grid ->].
  destruct (draw_squares_ok (squares this)) as [sq ->]. cbn [bind].
  rewrite !div_ok by lra. cbn [bind].
  unfold createRadialGradient.
  assert (Hmax : 0 <= Rmax (width this) (height this) * 0.7).
  { pose proof (Rmax_l (width this) (height this)). lra. }
  replace (ltb 0 0) with false by (symmetry; apply ltb_false; lra).
  replace (ltb (Rmax (width this) (height this) * 0.7) 0) with false
    by (symmetry; apply ltb_false; lra).
  cbn. eexists; reflexivity.
Qed.

Lemma animate_ok (this : Engine) :
  nonneg_surface this ->
  exists cmds,
    draw (after_update this) = Ok cmds /\
    animate this
    = Ok (if isRunning this
          then painted cmds (S (pending this)) (after_update this)
          else this).
Proof.
  intros Hs.
  destruct (draw_ok (after_update this)) as [cmds Hd]; [exact Hs|].
  exists cmds; split; [exact Hd|].
  unfold animate. destruct (isRunning this); cbn [negb]; [|reflexivity].
  rewrite update_ok. cbn [bind]. rewrite Hd. reflexivity.
Qed.

(** ** The sort of [createSquares] *)

Lemma insert_perm (a : Square) (l : list Square) :
  Permutation (a :: l) (insert a l).
Proof.
  induction l as [|b l IH]; cbn [insert]; [apply Permutation_refl|].
  destruct (compare_layer a b <=? 0)%Z; [apply Permutation_refl|].
  eapply perm_trans; [apply perm_swap|]. now apply perm_skip.
Qed.

Lemma sort_perm (l : list Square) : Permutation l (sort l).
Proof.
  induction l as [|a l IH]; cbn [sort]; [constructor|].
  eapply perm_trans; [apply perm_skip, IH | apply insert_perm].
Qed.

Lemma insert_hd (a b : Square) (l : list Square) :
  layer_le b a -> HdRel layer_le b l -> HdRel layer_le b (insert a l).
Proof.
  intros Hba Hl. destruct l as [|c l]; cbn [insert]; [now constructor|].
  destruct (compare_layer a c <=? 0)%Z; constructor; auto.
  now inversion Hl.
Qed.

Lemma insert_sorted (a : Square) (l : list Square) :
  Sorted layer_le l -> Sorted layer_le (insert a l).
Proof.
  induction l as [|b l IH]; intros Hs; cbn [insert].
  - repeat constructor.
  - destruct (compare_layer a b <=? 0)%Z eqn:E; unfold compare_layer in E.
    + constructor; [exact Hs|]. constructor. unfold layer_le. lia.
    + inversion Hs; subst. constructor; [now apply IH|].
      apply insert_hd; [unfold layer_le; lia | assumption].
Qed.

Lemma sort_sorted (l : list Square) : StronglySorted layer_le (sort l).
Proof.
  apply Sorted_StronglySorted.
  - intros a b c; unfold layer_le; lia.
  - induction l as [|a l IH]; cbn [sort]; [constructor|].
    now apply insert_sorted.
Qed.

(** ** Fresh elements *)

Lemma new_square_created (this : Engine) (rnd : nat -> R) (i : nat) :
  random rnd -> nonneg_surface this -> created this (new_square this rnd i).
Proof.
  intros Hr [Hw Hh].
  assert (Hfloor : forall j,
             (0 <= Zfloor (rnd (i * draws_per_square + j)%nat * 3) <= 2)%Z).
  { intros j. pose proof (Hr (i * draws_per_square + j)%nat) as Hj.
    split.
    - apply Zfloor_lub. cbn. lra.
    - pose proof (Zfloor_bound (rnd (i * draws_per_square + j)%nat * 3)) as Hb.
      assert (IZR (Zfloor (rnd (i * draws_per_square + j)%nat * 3)) < IZR 3)
        as Hlt by (cbn; lra).
      apply lt_IZR in Hlt. lia. }
  constructor; cbn [new_square x y size rotationSpeed baseX baseY foldState
                    foldSpeed layer];
    try apply Hfloor;
    repeat match goal with
           | |- context [rnd ?n] =>
               lazymatch goal with
               | _ : 0 <= rnd n < 1 |- _ => fail
               | _ => pose proof (Hr n)
               end
           end; try nra.
Qed.

Lemma createSquares_squares (rnd : nat -> R) (this : Engine) :
  squares (createSquares rnd this)
  = sort (map (new_square this rnd) (seq 0 numSquares)).
Proof. reflexivity. Qed.

Lemma createSquares_Forall (P : Square -> Prop) (rnd : nat -> R)
  (this : Engine) :
  (forall i, P (new_square this rnd i)) ->
  Forall P (squares (createSquares rnd this)).
Proof.
  intros HP. rewrite createSquares_squares. apply Forall_forall. intros sq Hin.
  apply (Permutation_in _ (Permutation_sym (sort_perm _))) in Hin.
  apply in_map_iff in Hin. destruct Hin as [i [<- _]]. apply HP.
Qed.

Lemma createSquares_created (rnd : nat -> R) (this : Engine) :
  random rnd -> nonneg_surface this ->
  Forall (created (createSquares rnd this)) (squares (createSquares rnd this)).
Proof.
  intros Hr Hs. apply createSquares_Forall. intros i.
  destruct (new_square_created this rnd i Hr Hs); constructor; assumption.
Qed.

Lemma createSquares_length (rnd : nat -> R) (this : Engine) :
  List.length (squares (createSquares rnd this)) = 40%nat.
Proof.
  rewrite createSquares_squares.
  rewrite <- (Permutation_length (sort_perm _)), length_map, length_seq.
  reflexivity.
Qed.

Lemma zero_random : random (fun _ => 0).
Proof. intros n; lra. Qed.

Lemma origin_engine_squares :
  exists rest, squares origin_engine = origin_square :: rest.
Proof.
  pose proof (createSquares_length (fun _ => 0) (resize 800 600 1 fresh)) as Hl.
  pose proof (createSquares_Forall (fun sq => sq = origin_square) (fun _ => 0)
                (resize 800 600 1 fresh) (fun i => eq_refl)) as HF.
  unfold origin_engine, init.
  destruct (squares (createSquares (fun _ => 0) (resize 800 600 1 fresh)))
    as [|sq rest]; [discriminate Hl|].
  inversion HF; subst. exists rest. reflexivity.
Qed.

Lemma chase_rnd_random : random chase_rnd.
Proof.
  intros n. unfold chase_rnd.
  generalize (n mod draws_per_square)%nat as m. intros m.
  do 15 (destruct m as [|m]; [lra|]). lra.
Qed.

(** ** What every event preserves *)

Lemma created_sound (this : Engine) (sq : Square) :
  nonneg_surface this -> created this sq -> sound this sq.
Proof.
  intros [Hw Hh] [_ _ Hsz Hrs Hx Hy Hfs Hfv _]. pose proof PI_gt_3.
  constructor; try assumption; [|lra].
  unfold nearly_padded. lra.
Qed.

Lemma updated_sound (this : Engine) (i : nat) (sq : Square) :
  nonneg_surface this -> sound this sq -> sound this (updated this i sq).
Proof.
  intros [Hw Hh] [Hsz _ Hfs Hfv Hrs].
  constructor; cbn [updated size foldState foldSpeed rotationSpeed];
    try assumption.
  - unfold nearly_padded. cbn [updated size baseX baseY].
    pose proof (wrap_bounds (width this) (size sq) (baseX sq + drift_x this i)).
    pose proof (wrap_bounds (height this) (size sq) (baseY sq + drift_y this i)).
    pose proof (push_x_small this sq). pose proof (push_y_small this sq).
    lra.
  - apply next_fold_bounds; lra.
Qed.

Lemma sound_ext (this that : Engine) (sq : Square) :
  width that = width this -> height that = height this ->
  sound this sq -> sound that sq.
Proof.
  intros Hw Hh [? Hb ? ? ?]. constructor; try assumption.
  unfold nearly_padded in *. rewrite Hw, Hh. exact Hb.
Qed.

Lemma invariant_ext (this that : Engine) :
  width that = width this -> height that = height this ->
  squares that = squares this -> invariant this -> invariant that.
Proof.
  intros Hw Hh Hs [[H1 H2] HF]. split.
  - unfold nonneg_surface. rewrite Hw, Hh. split; assumption.
  - rewrite Hs. eapply Forall_impl; [|exact HF].
    intros sq. now apply sound_ext.
Qed.

Lemma after_update_invariant (this : Engine) :
  invariant this -> invariant (after_update this).
Proof.
  intros [Hs HF]. split; [exact Hs|].
  unfold after_update. cbn [with_squares squares].
  eapply Forall_map_from; [|exact HF].
  intros i sq Hsq.
  apply (sound_ext (ticked this)); [reflexivity | reflexivity|].
  apply updated_sound; [exact Hs|].
  now apply (sound_ext this).
Qed.

Lemma init_invariant (w h d : R) (rnd : nat -> R) (this : Engine) :
  0 <= w -> 0 <= h -> random rnd -> invariant (init w h d rnd this).
Proof.
  intros Hw Hh Hr.
  assert (nonneg_surface (resize w h d this)) as Hs by (split; assumption).
  split; [exact Hs|].
  eapply Forall_impl; [|apply (createSquares_created rnd _ Hr Hs)].
  intros sq Hc. apply created_sound; assumption.
Qed.

Lemma animate_invariant (this : Engine) :
  invariant this -> exists this', animate this = Ok this' /\ invariant this'.
Proof.
  intros Hinv. destruct (animate_ok this (proj1 Hinv)) as [cmds [_ ->]].
  eexists; split; [reflexivity|].
  destruct (isRunning this); [|exact Hinv].
  apply (invariant_ext (after_update this)); try reflexivity.
  now apply after_update_invariant.
Qed.

Lemma step_invariant (e : Event) (this : Engine) :
  valid_event e -> invariant this ->
  exists this', step e this = Ok this' /\ invariant this'.
Proof.
  intros He Hinv. destruct e as [|w h d rnd|cx cy l t|hidden|]; cbn [step].
  - destruct (pending this) as [|n]; [eauto|].
    apply animate_invariant. now apply (invariant_ext this).
  - destruct He as (Hw & Hh & Hr). eexists; split; [reflexivity|].
    now apply init_invariant.
  - eexists; split; [reflexivity|]. now apply (invariant_ext this).
  - cbn [set_running isRunning]. destruct hidden; cbn [negb].
    + eexists; split; [reflexivity|]. now apply (invariant_ext this).
    + apply animate_invariant. now apply (invariant_ext this).
  - eexists; split; [reflexivity|]. now apply (invariant_ext this).
Qed.

Lemma run_invariant (evs : list Event) :
  forall this, Forall valid_event evs -> invariant this ->
  exists this', run evs this = Ok this' /\ invariant this'.
Proof.
  induction evs as [|e evs IH]; intros this Hev Hinv; cbn [run]; [eauto|].
  inversion Hev as [|? ? He Hevs]; subst.
  destruct (step_invariant e this He Hinv) as [this1 [-> Hinv1]]. cbn [bind].
  now apply IH.
Qed.

Lemma constructor_invariant (w h d : R) (rnd : nat -> R) :
  0 <= w -> 0 <= h -> random rnd ->
  exists this, constructor w h d rnd = Ok this /\ invariant this.
Proof.
  intros Hw Hh Hr. apply animate_invariant. now apply init_invariant.
Qed.

(** ** The frame loop *)

Lemma run_app (l1 l2 : list Event) :
  forall s s1, run l1 s = Ok s1 -> run (l1 ++ l2) s = run l2 s1.
Proof.
  induction l1 as [|e l1 IH]; intros s s1; cbn [run app].
  - intros [= <-]. reflexivity.
  - destruct (step e s) as [s'|err]; cbn [bind]; [apply IH | discriminate].
Qed.

(** A requested frame that runs while the engine is paused does nothing
    but leave the queue. *)
Lemma paused_frames (k : nat) :
  forall p,
    isRunning p = false ->
    exists p',
      run (repeat Frame k) p = Ok p' /\
      isRunning p' = false /\ same_motion p p'.
Proof.
  induction k as [|k IH]; intros p Hp; cbn [repeat run].
  - exists p. split; [reflexivity|]. split; [exact Hp | apply same_motion_refl].
  - cbn [step]. destruct (pending p) as [|n].
    + cbn [bind]. apply IH, Hp.
    + unfold animate. cbn [painted isRunning]. rewrite Hp. cbn [negb bind].
      destruct (IH (painted [] n p)) as (p' & Hrun & Hr & Hm); [exact Hp|].
      exists p'. split; [exact Hrun|]. split; [exact Hr|].
      eapply same_motion_trans; [|exact Hm]. repeat split.
Qed.

Lemma animate_mouse (this s : Engine) :
  animate this = Ok s -> mouseX s = mouseX this /\ mouseY s = mouseY this.
Proof.
  unfold animate. destruct (isRunning this); cbn [negb].
  - rewrite update_ok. cbn [bind].
    destruct (draw (after_update this)) as [cmds|e]; cbn [bind]; [|discriminate].
    intros [= <-]. split; reflexivity.
  - intros [= <-]. split; reflexivity.
Qed.

Lemma run_mouse (evs : list Event) :
  forall this s,
    Forall no_mouse_move evs -> run evs this = Ok s ->
    mouseX s = mouseX this /\ mouseY s = mouseY this.
Proof.
  induction evs as [|e evs IH]; intros this s Hev; cbn [run].
  - intros [= <-]. split; reflexivity.
  - inversion Hev as [|? ? He Hevs]; subst.
    destruct (step e this) as [this1|err] eqn:Hstep; cbn [bind]; [|discriminate].
    intros Hrun. destruct (IH this1 s Hevs Hrun) as [Hx Hy].
    rewrite Hx, Hy. clear IH Hrun Hx Hy.
    destruct e as [|w h d rnd|cx cy l t|hidden|]; cbn [step] in Hstep.
    + destruct (pending this) as [|n].
      * injection Hstep as <-. split; reflexivity.
      * apply animate_mouse in Hstep. exact Hstep.
    + injection Hstep as <-. split; reflexivity.
    + destruct He.
    + cbn [set_running isRunning] in Hstep. destruct hidden; cbn [negb] in Hstep.
      * injection Hstep as <-. split; reflexivity.
      * apply animate_mouse in Hstep. exact Hstep.
    + injection Hstep as <-. split; reflexivity.
Qed.

(** ** A pointer that follows an element *)

Lemma aimed_frame (s : Engine) (sq : Square) (rest : list Square) (a : R)
  (n : nat) :
  isRunning s = true -> pending s = S n -> nonneg_surface s ->
  squares s = sq :: rest -> 0 < a ->
  exists s' sq' rest',
    run [aim a s; Frame] s = Ok s' /\
    isRunning s' = true /\ pending s' = S n /\
    width s' = width s /\ height s' = height s /\
    squares s' = sq' :: rest' /\ size sq' = size sq /\
    baseX sq' = wrap (width s) (size sq) (baseX sq + drift_x (ticked s) 0)
                - (if ltb a 150 then (150 - a) / 150 * 0.5 else 0).
Proof.
  intros Hrun Hpend Hs Hsq Ha.
  unfold aim. rewrite Hsq. cbn [run step bind].
  set (m := set_mouse (osc_x (ticked s) sq + a - 0) (osc_y (ticked s) sq - 0) s).
  change (pending m) with (pending s). rewrite Hpend.
  destruct (animate_ok (painted [] n m) Hs) as [cmds [_ Hanim]].
  change (isRunning (painted [] n m)) with (isRunning s) in Hanim.
  rewrite Hrun in Hanim. rewrite Hanim. cbn [bind].
  set (t := ticked (painted [] n m)).
  exists (painted cmds (S (pending (painted [] n m))) (after_update (painted [] n m))),
    (updated t 0 sq), (map_from (updated t) 1 rest).
  split; [reflexivity|]. split; [exact Hrun|]. split; [reflexivity|].
  split; [reflexivity|]. split; [reflexivity|].
  split.
  { cbn [painted after_update with_squares squares set_mouse m]. rewrite Hsq.
    reflexivity. }
  split; [reflexivity|].
  cbn [updated baseX].
  change (width t) with (width s).
  change (drift_x t 0) with (drift_x (ticked s) 0).
  f_equal.
  assert (Hdx : mouseX t - osc_x t sq = a).
  { change (osc_x t sq) with (osc_x (ticked s) sq).
    change (mouseX t) with (osc_x (ticked s) sq + a - 0). ring. }
  assert (Hdy : mouseY t - osc_y t sq = 0).
  { change (osc_y t sq) with (osc_y (ticked s) sq).
    change (mouseY t) with (osc_y (ticked s) sq - 0). ring. }
  assert (Hd : pointer_dist t sq = a).
  { unfold pointer_dist. rewrite Hdx, Hdy.
    replace (a * a + 0 * 0) with (a * a) by ring. apply sqrt_square. lra. }
  unfold push_x, repelled, force. rewrite Hd, Hdx.
  replace (gtb a 0) with true by (symmetry; apply gtb_true; exact Ha).
  rewrite andb_true_r. destruct (ltb a 150); [field; lra | reflexivity].
Qed.

(** With the pointer [a] to the right of the displayed position, the
    distance of the next tick is [a]. *)
Lemma aimed_dist (s : Engine) (sq : Square) (rest : list Square) (a : R) :
  squares s = sq :: rest -> 0 <= a ->
  exists m,
    step (aim a s) s = Ok m /\
    squares m = squares s /\ time m = time s /\
    width m = width s /\ height m = height s /\
    x (updated (ticked m) 0 sq) - mouseX m = - a /\
    y (updated (ticked m) 0 sq) - mouseY m = 0 /\
    pointer_dist (ticked m) sq = a /\
    drift_x (ticked m) 0 = drift_x (ticked s) 0.
Proof.
  intros Hsq Ha. unfold aim. rewrite Hsq. cbn [step].
  eexists; split; [reflexivity|].
  set (m := set_mouse (osc_x (ticked s) sq + a - 0) (osc_y (ticked s) sq - 0) s).
  split; [exact Hsq|]. split; [reflexivity|].
  split; [reflexivity|]. split; [reflexivity|].
  assert (Hdx : osc_x (ticked m) sq - mouseX m = - a).
  { change (osc_x (ticked m) sq) with (osc_x (ticked s) sq).
    change (mouseX m) with (osc_x (ticked s) sq + a - 0). ring. }
  assert (Hdy : osc_y (ticked m) sq - mouseY m = 0).
  { change (osc_y (ticked m) sq) with (osc_y (ticked s) sq).
    change (mouseY m) with (osc_y (ticked s) sq - 0). ring. }
  split; [exact Hdx|]. split; [exact Hdy|]. split; [|reflexivity].
  unfold pointer_dist.
  change (mouseX (ticked m)) with (mouseX m).
  change (mouseY (ticked m)) with (mouseY m).
  replace (mouseX m - osc_x (ticked m) sq) with a by lra.
  replace (mouseY m - osc_y (ticked m) sq) with 0 by lra.
  replace (a * a + 0 * 0) with (a * a) by ring. now apply sqrt_square.
Qed.

(** One frame with the pointer at [pace c] moves the base abscissa of the
    first element by exactly [- c]. *)
Lemma chased_step (c lo hi : R) (s : Engine) :
  0.1 < c < 0.4 -> -19.9 <= lo -> hi <= 800 ->
  chased lo hi s ->
  exists s',
    run [aim (pace c s) s; Frame] s = Ok s' /\ chased (lo - c) (hi - c) s'.
Proof.
  intros Hc Hlo Hhi (Hrun & Hpend & Hw & Hh & sq & rest & Hsq & Hsz & Hb).
  pose proof (drift_x_small (ticked s) 0) as Hd.
  assert (0 < pace c s < 150) as Ha by (unfold pace; lra).
  assert (nonneg_surface s) as Hs by (unfold nonneg_surface; lra).
  destruct (aimed_frame s sq rest (pace c s) 0 Hrun Hpend Hs Hsq (proj1 Ha))
    as (s' & sq' & rest' & Hr & Hrun' & Hpend' & Hw' & Hh' & Hsq' & Hsz' & Hb').
  exists s'. split; [exact Hr|].
  split; [exact Hrun'|]. split; [exact Hpend'|].
  split; [congruence|]. split; [congruence|].
  exists sq', rest'. split; [exact Hsq'|]. split; [congruence|].
  rewrite Hb'.
  replace (ltb (pace c s) 150) with true by (symmetry; apply ltb_true; lra).
  rewrite wrap_inside by lra. unfold pace. lra.
Qed.

Lemma chased_steps (c : R) (n : nat) :
  0.1 < c < 0.4 ->
  forall lo hi s,
    -19.9 <= lo - c * INR n + c -> hi <= 800 ->
    chased lo hi s ->
    exists evs s',
      Forall valid_event evs /\ run evs s = Ok s' /\
      chased (lo - c * INR n) (hi - c * INR n) s'.
Proof.
  intros Hc. induction n as [|n IH]; intros lo hi s Hlo Hhi Hch.
  - exists [], s. cbn [INR run]. split; [constructor|]. split; [reflexivity|].
    replace (lo - c * 0) with lo by ring. replace (hi - c * 0) with hi by ring.
    exact Hch.
  - rewrite S_INR in *. pose proof (pos_INR n) as Hn.
    destruct (chased_step c lo hi s Hc) as (s1 & Hr1 & Hch1);
      [nra | exact Hhi | exact Hch |].
    destruct (IH (lo - c) (hi - c) s1) as (evs & s' & Hev & Hr & Hch');
      [nra | lra | exact Hch1 |].
    exists ([aim (pace c s) s; Frame] ++ evs), s'.
    split.
    { apply Forall_app. split; [|exact Hev].
      unfold aim. destruct (squares s); repeat constructor. }
    split; [rewrite (run_app _ _ _ _ Hr1); exact Hr|].
    replace (lo - c * (INR n + 1)) with (lo - c - c * INR n) by ring.
    replace (hi - c * (INR n + 1)) with (hi - c - c * INR n) by ring.
    exact Hch'.
Qed.

(** The constructor with these values: the pointer at the corner is too
    far to repel, and the first tick drifts the first element to the right
    by less than 0.00003. *)
Lemma chase_start :
  exists s0, constructor 800 600 1 chase_rnd = Ok s0 /\ chased 0 0.00003 s0.
Proof.
  set (c := init 800 600 1 chase_rnd fresh).
  assert (nonneg_surface c) as Hs by (split; cbn; lra).
  destruct (animate_ok c Hs) as [cmds [_ Ha]].
  change (isRunning c) with true in Ha. cbv iota in Ha.
  eexists; split; [exact Ha|].
  split; [reflexivity|]. split; [reflexivity|].
  split; [reflexivity|]. split; [reflexivity|].
  pose proof (createSquares_length chase_rnd (resize 800 600 1 fresh)) as Hl.
  pose proof (createSquares_Forall
                (fun sq => baseX sq = 0 /\ baseY sq = 300 /\ size sq = 20
                           /\ amplitudeY sq = 20)
                chase_rnd (resize 800 600 1 fresh)) as HF.
  cbn [painted after_update with_squares squares].
  change (squares c) with (squares (createSquares chase_rnd (resize 800 600 1 fresh))).
  destruct (squares (createSquares chase_rnd (resize 800 600 1 fresh)))
    as [|sq rest]; [discriminate Hl|].
  assert (baseX sq = 0 /\ baseY sq = 300 /\ size sq = 20 /\ amplitudeY sq = 20)
    as (Hbx & Hby & Hsz & Hay).
  { assert (Forall (fun sq => baseX sq = 0 /\ baseY sq = 300 /\ size sq = 20
                              /\ amplitudeY sq = 20) (sq :: rest)) as HF'.
    { apply HF. intros i. cbn [new_square baseX baseY size amplitudeY].
      unfold chase_rnd.
      rewrite !(Nat.add_comm (i * draws_per_square)), !Nat.Div0.mod_add.
      cbn. repeat split; lra. }
    now inversion HF'. }
  set (t := ticked c).
  exists (updated t 0 sq), (map_from (updated t) 1 rest).
  split; [reflexivity|]. split; [exact Hsz|].
  cbn [updated baseX].
  assert (Hfar : repelled t sq = false).
  { apply repelled_false. left. unfold pointer_dist.
    change (mouseX t) with 0. change (mouseY t) with 0.
    pose proof (coordinate_le_norm (0 - osc_y t sq) (0 - osc_x t sq)) as Hc.
    replace ((0 - osc_y t sq) * (0 - osc_y t sq)
             + (0 - osc_x t sq) * (0 - osc_x t sq))
      with ((0 - osc_x t sq) * (0 - osc_x t sq)
            + (0 - osc_y t sq) * (0 - osc_y t sq)) in Hc by ring.
    assert (280 <= osc_y t sq) as Hy.
    { unfold osc_y. rewrite Hby, Hay.
      pose proof (COS_bound (INR (time t) * 0.001 * speedY sq + phaseY sq)).
      lra. }
    lra. }
  unfold push_x. rewrite Hfar, Hbx, Hsz.
  assert (Hdrift : drift_x t 0 = sin 0.0003 * 0.1).
  { unfold drift_x. cbn [t ticked with_squares time c init createSquares
                         resize fresh INR].
    replace (1 * 0.0003 + 0) with 0.0003 by lra. reflexivity. }
  assert (Hsin : 0 < sin 0.0003 < 0.0003).
  { split; [|apply sin_lt_x; lra]. pose proof PI_gt_3. apply sin_gt_0; lra. }
  rewrite Hdrift. change (width t) with 800.
  rewrite wrap_inside by lra. lra.
Qed.

(** After the constructor, 67 pointer moves and frames lead to a running
    engine whose first element is more than 0.14 to the left of the left
    padded edge. *)
Lemma chase_reaches_edge :
  exists s0 evs s,
    constructor 800 600 1 chase_rnd = Ok s0 /\
    Forall valid_event evs /\ run evs s0 = Ok s /\
    chased (-20.15) (-20.14997) s.
Proof.
  destruct chase_start as (s0 & Hs0 & Hch0).
  destruct (chased_steps 0.3 66 ltac:(lra) 0 0.00003 s0) as (evs & s1 & Hev & Hr & Hch1);
    [rewrite INR_66; lra | lra | exact Hch0 |].
  rewrite INR_66 in Hch1.
  destruct (chased_step 0.35 (0 - 0.3 * 66) (0.00003 - 0.3 * 66) s1)
    as (s & Hr2 & Hch); [lra | lra | lra | exact Hch1 |].
  exists s0, (evs ++ [aim (pace 0.35 s1) s1; Frame]), s.
  split; [exact Hs0|]. split.
  { apply Forall_app. split; [exact Hev|].
    unfold aim. destruct (squares s1); repeat constructor. }
  split; [rewrite (run_app _ _ _ _ Hr); exact Hr2|].
  destruct Hch as (H1 & H2 & H3 & H4 & sq & rest & H5 & H6 & H7).
  repeat (split; [assumption|]). exists sq, rest.
  split; [exact H5|]. split; [exact H6|]. lra.
Qed.

(** ** Single ticks at the edge of the surface *)

Lemma edge_osc_x : osc_x (ticked edge_engine) edge_square = 819.8.
Proof.
  unfold osc_x. cbn [ticked with_squares time edge_engine edge_square
                     baseX speedX phaseX amplitudeX INR].
  replace (1 * 0.001 * 0.5 + (PI - 0.0005)) with PI by lra.
  rewrite sin_PI. lra.
Qed.

Lemma edge_osc_y : osc_y (ticked edge_engine) edge_square = 300.
Proof.
  unfold osc_y. cbn [ticked with_squares time edge_engine edge_square
                     baseY speedY phaseY amplitudeY INR].
  replace (1 * 0.001 * 0.5 + (PI / 2 - 0.0005)) with (PI / 2) by lra.
  rewrite cos_PI2. lra.
Qed.

Lemma edge_pointer_dist : pointer_dist (ticked edge_engine) edge_square = 30.
Proof.
  unfold pointer_dist. rewrite edge_osc_x, edge_osc_y.
  cbn [ticked with_squares mouseX mouseY edge_engine].
  replace ((789.8 - 819.8) * (789.8 - 819.8) + (300 - 300) * (300 - 300))
    with (30 * 30) by lra.
  apply sqrt_square. lra.
Qed.

Lemma edge_push_x : push_x (ticked edge_engine) edge_square = -0.4.
Proof.
  unfold push_x, force, repelled. rewrite edge_pointer_dist, edge_osc_x.
  replace (ltb 30 150) with true by (symmetry; apply ltb_true; lra).
  replace (gtb 30 0) with true by (symmetry; apply gtb_true; lra).
  cbn [andb ticked with_squares mouseX edge_engine]. lra.
Qed.

(** One update tick takes this element from inside the padded bounds to
    the right of them. *)
Lemma edge_tick_leaves_bounds :
  padded edge_engine edge_square /\
  exists s' sq',
    update edge_engine = Ok s' /\
    squares s' = [sq'] /\
    width s' + size sq' < baseX sq'.
Proof.
  split.
  - unfold padded. cbn. lra.
  - exists (after_update edge_engine), (updated (ticked edge_engine) 0 edge_square).
    split; [apply update_ok|]. split; [reflexivity|].
    cbn [after_update with_squares width updated size baseX].
    rewrite edge_push_x.
    cbn [ticked with_squares width edge_engine edge_square size baseX].
    pose proof (SIN_bound (INR (time (ticked edge_engine)) * 0.0003 + INR 0)) as Hs.
    fold (drift_x (ticked edge_engine) 0) .
    assert (-0.1 <= drift_x (ticked edge_engine) 0 <= 0.1) as Hd
        by (unfold drift_x; lra).
    rewrite wrap_inside by lra. lra.
Qed.

(** The pointer is more than 150 away, and the base abscissa changes by
    the wrap from one padded edge to the other, not by the drift term. *)
Lemma rim_tick_wraps :
  padded rim_engine rim_square /\
  exists s sq',
    update rim_engine = Ok s /\
    squares s = [sq'] /\
    150 <= sqrt ((x sq' - mouseX s) * (x sq' - mouseX s)
                 + (y sq' - mouseY s) * (y sq' - mouseY s)) /\
    baseX sq' = -20 /\
    baseX sq' - baseX rim_square
    <> sin (INR (time s) * 0.0003 + INR 0) * 0.1.
Proof.
  split; [unfold padded; cbn; lra|].
  exists (after_update rim_engine), (updated (ticked rim_engine) 0 rim_square).
  split; [apply update_ok|]. split; [reflexivity|].
  set (t := ticked rim_engine).
  assert (Hx : osc_x t rim_square = 820).
  { unfold osc_x. cbn [t ticked with_squares time rim_engine rim_square
                       baseX speedX phaseX amplitudeX INR].
    replace (1 * 0.001 * 0.5 + (PI - 0.0005)) with PI by lra.
    rewrite sin_PI. lra. }
  assert (Hdrift : drift_x t 0 = sin 0.0003 * 0.1).
  { unfold drift_x. cbn [t ticked with_squares time rim_engine INR].
    replace (1 * 0.0003 + 0) with 0.0003 by lra. reflexivity. }
  assert (Hsin : 0 < sin 0.0003 <= 1).
  { split; [|apply SIN_bound]. pose proof PI_gt_3. apply sin_gt_0; lra. }
  assert (Hfar : 150 <= sqrt ((osc_x t rim_square - 0) * (osc_x t rim_square - 0)
                              + (osc_y t rim_square - 0) * (osc_y t rim_square - 0))).
  { pose proof (coordinate_le_norm (osc_x t rim_square - 0)
                  (osc_y t rim_square - 0)) as Hc.
    rewrite Hx in *. lra. }
  assert (Hrep : repelled t rim_square = false).
  { apply repelled_false. left. unfold pointer_dist.
    replace (mouseX t) with 0 by reflexivity.
    replace (mouseY t) with 0 by reflexivity.
    match goal with
    | |- 150 <= sqrt ?e =>
        replace e with ((osc_x t rim_square - 0) * (osc_x t rim_square - 0)
                        + (osc_y t rim_square - 0) * (osc_y t rim_square - 0))
          by ring
    end.
    exact Hfar. }
  assert (Hbase : baseX (updated t 0 rim_square) = -20).
  { cbn [updated baseX]. unfold push_x. rewrite Hrep, Hdrift.
    replace (baseX rim_square) with 820 by reflexivity.
    replace (size rim_square) with 20 by reflexivity.
    replace (width t) with 800 by reflexivity.
    rewrite wrap_above by lra. lra. }
  split; [exact Hfar|]. split; [exact Hbase|].
  rewrite Hbase. replace (baseX rim_square) with 820 by reflexivity.
  pose proof (SIN_bound (INR (time (after_update rim_engine)) * 0.0003 + INR 0)).
  lra.
Qed.

(** * The claims *)

(** ** C1: the wrap and the base position *)

(** C1, as amended.  In every state that the constructor and any events
    after it lead to, every base position is less than 0.5 outside the
    padded bounds; the wrap of a frame acts on the drifted position, before
    the mouse interaction of that frame: an element that the pointer does
    not repel on a frame ends that frame inside the padded bounds. *)
Theorem base_stays_near_padded_bounds
  (w h d : R) (rnd : nat -> R) (evs : list Event) :
  0 <= w -> 0 <= h -> random rnd -> Forall valid_event evs ->
  exists s0 s s1,
    constructor w h d rnd = Ok s0 /\
    run evs s0 = Ok s /\
    Forall (nearly_padded s) (squares s) /\
    update s = Ok s1 /\
    forall i sq sq',
      nth_error (squares s) i = Some sq ->
      nth_error (squares s1) i = Some sq' ->
      repelled (ticked s) sq = false ->
      padded s1 sq'.
Proof.
  intros Hw Hh Hr Hev.
  destruct (constructor_invariant w h d rnd Hw Hh Hr) as [s0 [Hs0 Hinv0]].
  destruct (run_invariant evs s0 Hev Hinv0) as [s [Hs [Hsurf HF]]].
  exists s0, s, (after_update s).
  split; [exact Hs0|]. split; [exact Hs|]. split.
  - eapply Forall_impl; [|exact HF]. intros sq Hsq. apply Hsq.
  - split; [apply update_ok|].
    intros i sq sq' Hi Hi' Hrep.
    rewrite nth_error_after_update, Hi in Hi'. injection Hi' as <-.
    rewrite Forall_forall in HF.
    destruct (HF sq (nth_error_In _ _ Hi)) as [Hsz _ _ _ _].
    destruct Hsurf as [Hsw Hsh].
    unfold padded.
    cbn [updated size baseX baseY after_update with_squares width height ticked].
    unfold push_x, push_y. rewrite Hrep.
    pose proof (wrap_bounds (width s) (size sq)
                  (baseX sq + drift_x (ticked s) i)).
    pose proof (wrap_bounds (height s) (size sq)
                  (baseY sq + drift_y (ticked s) i)).
    lra.
Qed.

Lemma base_stays_near_padded_bounds_witness :
  exists s0 s,
    constructor 800 600 1 (fun _ => 0) = Ok s0 /\
    run [Frame; MouseMove 10 10 0 0; Frame] s0 = Ok s /\
    Forall (nearly_padded s) (squares s).
Proof.
  assert (H8 : 0 <= 800) by lra.
  assert (H6 : 0 <= 600) by lra.
  assert (Hr : random (fun _ => 0)) by (intros n; lra).
  assert (Hev : Forall valid_event [Frame; MouseMove 10 10 0 0; Frame])
    by (repeat constructor).
  destruct (base_stays_near_padded_bounds 800 600 1 (fun _ => 0)
              [Frame; MouseMove 10 10 0 0; Frame] H8 H6 Hr Hev)
    as (s0 & s & s1 & H0 & H1 & H2 & _).
  exists s0, s. auto.
Defined.

(** C1 is false as stated.  With the pointer kept to the right of the
    first element, 67 frames after the constructor push its base abscissa
    to the left of the left padded edge: the push of a frame comes after
    the wrap of that frame.  [edge_engine] shows the same in one tick. *)
Lemma wrap_invariant_counterexample :
  (random chase_rnd /\
   exists s0 evs s sq,
     constructor 800 600 1 chase_rnd = Ok s0 /\
     Forall valid_event evs /\ run evs s0 = Ok s /\
     In sq (squares s) /\
     baseX sq < - size sq /\
     ~ padded s sq) /\
  (padded edge_engine edge_square /\
   exists s' sq',
     update edge_engine = Ok s' /\
     squares s' = [sq'] /\
     ~ padded s' sq').
Proof.
  split.
  - split; [exact chase_rnd_random|].
    destruct chase_reaches_edge
      as (s0 & evs & s & Hs0 & Hev & Hr & _ & _ & _ & _ & sq & rest & Hsq & Hsz & Hb).
    exists s0, evs, s, sq.
    split; [exact Hs0|]. split; [exact Hev|]. split; [exact Hr|].
    split; [rewrite Hsq; left; reflexivity|].
    split; [lra|]. unfold padded. lra.
  - destruct edge_tick_leaves_bounds as (Hin & s' & sq' & Hu & Hsq & Hout).
    split; [exact Hin|]. exists s', sq'.
    split; [exact Hu|]. split; [exact Hsq|].
    unfold padded. lra.
Qed.

(** ** C2: fold amount *)

(** C2, as amended.  The fold amount that [drawFoldedSquare] draws with is
    the sine of [foldState * PI], times 0.5; it lies between -0.5 and
    0.5. *)
Theorem fold_amount_range (sq : Square) :
  fold_amount sq = sin (foldState sq * PI) * 0.5 /\
  -0.5 <= fold_amount sq <= 0.5 /\
  exists cmds,
    drawFoldedSquare sq = Ok cmds /\
    In (lineTo (size sq / 2 * (1 - sin (foldState sq * PI) * 0.5 * 0.2))
          (size sq / 2)) cmds.
Proof.
  split; [reflexivity|]. split.
  - unfold fold_amount. pose proof (SIN_bound (foldState sq * PI)). lra.
  - unfold drawFoldedSquare. cbn zeta.
    rewrite !div_ok by lra. cbn [bind]. eexists; split; [reflexivity|].
    apply in_or_app; right. apply in_or_app; right. apply in_or_app; left.
    unfold fold_amount. cbn. tauto.
Qed.

(** C2 is false as stated: an element created with fold phase 0.5 has
    fold amount [sin (PI / 2) * 0.5 = 0.5], which is not
    [sin 0.5 * 0.5]. *)
Lemma fold_amount_counterexample :
  random (fun _ => 0.5) /\
  exists sq,
    In sq (squares (init 800 600 1 (fun _ => 0.5) fresh)) /\
    foldState sq = 0.5 /\
    fold_amount sq = 0.5 /\
    fold_amount sq <> sin (foldState sq) * 0.5.
Proof.
  split; [intros n; lra|].
  pose proof (createSquares_length (fun _ => 0.5) (resize 800 600 1 fresh)) as Hl.
  pose proof (createSquares_Forall (fun sq => foldState sq = 0.5)
                (fun _ => 0.5) (resize 800 600 1 fresh) (fun i => eq_refl)) as HF.
  unfold init.
  destruct (squares (createSquares (fun _ => 0.5) (resize 800 600 1 fresh)))
    as [|sq rest]; [discriminate Hl|].
  inversion HF as [|? ? Hfs _]; subst.
  exists sq. split; [left; reflexivity|]. split; [exact Hfs|].
  assert (fold_amount sq = 0.5) as Hfold.
  { unfold fold_amount. rewrite Hfs.
    replace (0.5 * PI) with (PI / 2) by lra. rewrite sin_PI2. lra. }
  split; [exact Hfold|]. rewrite Hfold, Hfs.
  assert (sin 0.5 < 0.5) by (apply sin_lt_x; lra). lra.
Qed.

(** ** C3: pointer repulsion *)

(** C3, as amended.  In a tick, with [dist] the distance from the displayed
    position of an element to the pointer: if [0 < dist < 150], the base
    position is the drifted and wrapped position plus an offset of length
    [(150 - dist) / 150 * 0.5] along the unit vector from the pointer to the
    element; if [dist >= 150] or [dist = 0], it is the drifted and wrapped
    position, with no repulsion term.  The wrap leaves a drifted position
    inside the padded bounds as it is, so that then the change of the base
    position is the drift term alone. *)
Theorem pointer_repulsion_or_drift (this : Engine) (i : nat) (sq : Square) :
  nth_error (squares this) i = Some sq ->
  exists s sq',
    update this = Ok s /\
    nth_error (squares s) i = Some sq' /\
    let dist := sqrt ((x sq' - mouseX s) * (x sq' - mouseX s)
                      + (y sq' - mouseY s) * (y sq' - mouseY s)) in
    let drifted_x := baseX sq + sin (INR (time s) * 0.0003 + INR i) * 0.1 in
    let drifted_y := baseY sq + cos (INR (time s) * 0.0003 + INR i) * 0.1 in
    let wrapped_x := wrap (width s) (size sq) drifted_x in
    let wrapped_y := wrap (height s) (size sq) drifted_y in
    let k := (150 - dist) / 150 * 0.5 in
    (0 < dist < 150 ->
     0 < k /\
     baseX sq' = wrapped_x + k * ((x sq' - mouseX s) / dist) /\
     baseY sq' = wrapped_y + k * ((y sq' - mouseY s) / dist) /\
     sqrt ((baseX sq' - wrapped_x) * (baseX sq' - wrapped_x)
           + (baseY sq' - wrapped_y) * (baseY sq' - wrapped_y)) = k) /\
    (150 <= dist \/ dist = 0 ->
     baseX sq' = wrapped_x /\ baseY sq' = wrapped_y) /\
    (- size sq <= drifted_x <= width s + size sq -> wrapped_x = drifted_x) /\
    (- size sq <= drifted_y <= height s + size sq -> wrapped_y = drifted_y).
Proof.
  intros Hi. exists (after_update this), (updated (ticked this) i sq).
  split; [apply update_ok|].
  rewrite nth_error_after_update, Hi. split; [reflexivity|].
  cbn [after_update with_squares mouseX mouseY time width height updated
       x y baseX baseY].
  set (t := ticked this).
  change (mouseX this) with (mouseX t). change (mouseY this) with (mouseY t).
  change (width this) with (width t). change (height this) with (height t).
  change (S (time this)) with (time t).
  fold (drift_x t i) (drift_y t i).
  set (a := osc_x t sq - mouseX t). set (b := osc_y t sq - mouseY t).
  assert (Hdist : pointer_dist t sq = sqrt (a * a + b * b)).
  { unfold pointer_dist, a, b. f_equal. ring. }
  set (wx := wrap (width t) (size sq) (baseX sq + drift_x t i)).
  set (wy := wrap (height t) (size sq) (baseY sq + drift_y t i)).
  cbv zeta.
  split; [|split; [|split]].
  - intros Hd.
    assert (repelled t sq = true) as Hrep
        by (apply repelled_true; rewrite Hdist; exact Hd).
    unfold push_x, push_y, force. rewrite Hrep, Hdist.
    replace (mouseX t - osc_x t sq) with (- a) by (unfold a; ring).
    replace (mouseY t - osc_y t sq) with (- b) by (unfold b; ring).
    set (d := sqrt (a * a + b * b)) in *.
    assert (0 < (150 - d) / 150 * 0.5) as Hk by lra.
    split; [exact Hk|].
    split; [field; lra|]. split; [field; lra|].
    replace (wx - - a / d * ((150 - d) / 150) * 0.5 - wx)
      with ((150 - d) / 150 * 0.5 * (a / d)) by (field; lra).
    replace (wy - - b / d * ((150 - d) / 150) * 0.5 - wy)
      with ((150 - d) / 150 * 0.5 * (b / d)) by (field; lra).
    apply scaled_unit_norm; [lra | exact (proj1 Hd)].
  - intros Hd.
    assert (repelled t sq = false) as Hrep
        by (apply repelled_false; rewrite Hdist; lra).
    unfold push_x, push_y. rewrite Hrep. split; lra.
  - intros Hin. unfold wx. now apply wrap_inside.
  - intros Hin. unfold wy. now apply wrap_inside.
Qed.

Lemma pointer_repulsion_witness :
  exists s sq',
    update edge_engine = Ok s /\ nth_error (squares s) 0 = Some sq'.
Proof.
  assert (Hi : nth_error (squares edge_engine) 0 = Some edge_square)
    by reflexivity.
  destruct (pointer_repulsion_or_drift edge_engine 0 edge_square Hi)
    as (s & sq' & H1 & H2 & _).
  exists s, sq'. auto.
Defined.

(** C3 is false as stated.  In the state that the chase above ends in,
    with the pointer moved 200 away, the next tick wraps the first element
    from the left of the surface to its right padded edge: the pointer is
    at distance 200, and the base abscissa changes by more than 840, not
    by the drift term.  [rim_engine] shows the same in one tick from a
    state inside the padded bounds. *)
Lemma drift_only_counterexample :
  (random chase_rnd /\
   exists s0 evs s sq s' sq',
     constructor 800 600 1 chase_rnd = Ok s0 /\
     Forall valid_event evs /\ run evs s0 = Ok s /\
     nth_error (squares s) 0 = Some sq /\
     update s = Ok s' /\
     nth_error (squares s') 0 = Some sq' /\
     150 <= sqrt ((x sq' - mouseX s') * (x sq' - mouseX s')
                  + (y sq' - mouseY s') * (y sq' - mouseY s')) /\
     baseX sq' - baseX sq
     <> sin (INR (time s') * 0.0003 + INR 0) * 0.1) /\
  (padded rim_engine rim_square /\
   exists s sq',
     update rim_engine = Ok s /\
     squares s = [sq'] /\
     150 <= sqrt ((x sq' - mouseX s) * (x sq' - mouseX s)
                  + (y sq' - mouseY s) * (y sq' - mouseY s)) /\
     baseX sq' - baseX rim_square
     <> sin (INR (time s) * 0.0003 + INR 0) * 0.1).
Proof.
  split.
  - split; [exact chase_rnd_random|].
    destruct chase_reaches_edge
      as (s0 & evs & s & Hs0 & Hev & Hr & _ & _ & Hw & _ & sq & rest & Hsq & Hsz & Hb).
    destruct (aimed_dist s sq rest 200 Hsq ltac:(lra))
      as (m & Hm & Hmsq & Hmt & Hmw & _ & Hdx & Hdy & Hd & Hdr).
    exists s0, (evs ++ [aim 200 s]), m, sq, (after_update m),
      (updated (ticked m) 0 sq).
    split; [exact Hs0|]. split.
    { apply Forall_app. split; [exact Hev|].
      unfold aim. rewrite Hsq. repeat constructor. }
    split.
    { rewrite (run_app _ _ _ _ Hr). cbn [run]. rewrite Hm. reflexivity. }
    split; [rewrite Hmsq, Hsq; reflexivity|].
    split; [apply update_ok|].
    split; [rewrite nth_error_after_update, Hmsq, Hsq; reflexivity|].
    change (mouseX (after_update m)) with (mouseX m).
    change (mouseY (after_update m)) with (mouseY m).
    rewrite Hdx, Hdy. split.
    { replace (- (200) * - (200) + 0 * 0) with (200 * 200) by ring.
      rewrite sqrt_square by lra. lra. }
    assert (repelled (ticked m) sq = false) as Hrep
        by (apply repelled_false; left; rewrite Hd; lra).
    cbn [updated baseX]. unfold push_x. rewrite Hrep.
    change (width (ticked m)) with (width m). rewrite Hmw, Hw, Hsz.
    pose proof (drift_x_small (ticked m) 0) as Hsmall.
    assert (wrap 800 20 (baseX sq + drift_x (ticked m) 0) = 820) as Hwrap.
    { unfold wrap.
      replace (ltb (baseX sq + drift_x (ticked m) 0) (- (20))) with true
        by (symmetry; apply ltb_true; lra).
      replace (gtb (800 + 20) (800 + 20)) with false
        by (symmetry; apply gtb_false; lra).
      lra. }
    rewrite Hwrap.
    pose proof (SIN_bound (INR (time (after_update m)) * 0.0003 + INR 0)).
    lra.
  - destruct rim_tick_wraps as (Hin & s & sq' & Hu & Hsq & Hfar & _ & Hne).
    split; [exact Hin|]. exists s, sq'. auto.
Qed.

(** ** C4: displayed position *)

(** C4, as amended.  At the end of a tick the displayed position of an
    element is the base position it had when the tick began, before the
    drift, wrap and repulsion of that tick, plus the oscillation offset at
    the new frame counter. *)
Theorem displayed_position_from_previous_base
  (this : Engine) (i : nat) (sq : Square) :
  nth_error (squares this) i = Some sq ->
  exists s sq',
    update this = Ok s /\
    time s = S (time this) /\
    nth_error (squares s) i = Some sq' /\
    x sq' = baseX sq
            + sin (INR (time s) * 0.001 * speedX sq + phaseX sq) * amplitudeX sq /\
    y sq' = baseY sq
            + cos (INR (time s) * 0.001 * speedY sq + phaseY sq) * amplitudeY sq.
Proof.
  intros Hi. exists (after_update this), (updated (ticked this) i sq).
  split; [apply update_ok|]. split; [reflexivity|].
  rewrite nth_error_after_update, Hi. repeat split.
Qed.

Lemma displayed_position_witness :
  exists s sq',
    update edge_engine = Ok s /\
    nth_error (squares s) 0 = Some sq' /\
    x sq' = 819.8
            + sin (INR (time s) * 0.001 * 0.5 + (PI - 0.0005)) * 20.
Proof.
  assert (Hi : nth_error (squares edge_engine) 0 = Some edge_square)
    by reflexivity.
  destruct (displayed_position_from_previous_base edge_engine 0 edge_square Hi)
    as (s & sq' & H1 & _ & H2 & H3 & _).
  exists s, sq'. auto.
Defined.

(** C4 is false as stated: after the first tick of the engine whose random
    values are all 0, the displayed abscissa of its first element is not
    its updated base abscissa plus the oscillation offset. *)
Lemma displayed_position_counterexample :
  exists s sq',
    update origin_engine = Ok s /\
    nth_error (squares s) 0 = Some sq' /\
    x sq' <> baseX sq'
             + sin (INR (time s) * 0.001 * speedX sq' + phaseX sq')
               * amplitudeX sq'.
Proof.
  destruct origin_engine_squares as [rest Hsq].
  exists (after_update origin_engine),
    (updated (ticked origin_engine) 0 origin_square).
  split; [apply update_ok|].
  rewrite nth_error_after_update, Hsq. split; [reflexivity|].
  set (this := ticked origin_engine).
  assert (Hsin : 0 < sin 0.0003 <= 1).
  { split; [|apply SIN_bound]. pose proof PI_gt_3. apply sin_gt_0; lra. }
  assert (Hoff : sin (INR (time this) * 0.001 * speedX origin_square
                      + phaseX origin_square) * amplitudeX origin_square
                 = sin 0.0003 * 20).
  { cbn [this ticked with_squares time origin_engine init
         createSquares resize fresh origin_square new_square
         speedX phaseX amplitudeX INR].
    replace (1 * 0.001 * (0.3 + 0 * 0.5) + 0 * PI * 2) with 0.0003 by lra.
    lra. }
  assert (Hosc : osc_x this origin_square = sin 0.0003 * 20).
  { unfold osc_x. rewrite Hoff. cbn. lra. }
  assert (Hdrift : drift_x this 0 = sin 0.0003 * 0.1).
  { unfold drift_x. cbn [this ticked with_squares time origin_engine init
                         createSquares resize fresh INR].
    replace (1 * 0.0003 + 0) with 0.0003 by lra. reflexivity. }
  assert (Hpush : push_x this origin_square <= 0).
  { apply push_x_sign. rewrite Hosc. cbn. lra. }
  cbn [updated x baseX speedX phaseX amplitudeX after_update with_squares time].
  fold this. fold (osc_x this origin_square).
  rewrite Hdrift.
  replace (baseX origin_square) with 0 by (cbn; lra).
  replace (size origin_square) with 20 by (cbn; lra).
  replace (width this) with 800 by reflexivity.
  rewrite wrap_inside by lra.
  change (S (time origin_engine)) with (time this).
  rewrite Hoff, Hosc. lra.
Qed.

(** ** C5: fold phase *)

(** C5, as amended.  In every state that the constructor and any events
    after it lead to, the fold phase of every element is in the closed
    interval from 0 to 2 pi; a tick adds the element's [foldSpeed], which
    never changes, and resets the phase to 0 when the sum is greater
    than 2 pi, so that a sum of exactly 2 pi is kept. *)
Theorem fold_phase_in_closed_range
  (w h d : R) (rnd : nat -> R) (evs : list Event) :
  0 <= w -> 0 <= h -> random rnd -> Forall valid_event evs ->
  exists s0 s s1,
    constructor w h d rnd = Ok s0 /\
    run evs s0 = Ok s /\
    Forall (fun sq => 0 <= foldState sq <= 2 * PI) (squares s) /\
    update s = Ok s1 /\
    forall i sq,
      nth_error (squares s) i = Some sq ->
      exists sq',
        nth_error (squares s1) i = Some sq' /\
        foldSpeed sq' = foldSpeed sq /\
        (2 * PI < foldState sq + foldSpeed sq -> foldState sq' = 0) /\
        (foldState sq + foldSpeed sq <= 2 * PI ->
         foldState sq' = foldState sq + foldSpeed sq).
Proof.
  intros Hw Hh Hr Hev.
  destruct (constructor_invariant w h d rnd Hw Hh Hr) as [s0 [Hs0 Hinv0]].
  destruct (run_invariant evs s0 Hev Hinv0) as [s [Hs [Hsurf HF]]].
  exists s0, s, (after_update s).
  split; [exact Hs0|]. split; [exact Hs|]. split.
  - eapply Forall_impl; [|exact HF]. intros sq Hsq. apply Hsq.
  - split; [apply update_ok|].
    intros i sq Hi. exists (updated (ticked s) i sq).
    rewrite nth_error_after_update, Hi.
    split; [reflexivity|]. split; [reflexivity|].
    cbn [updated foldState]. unfold next_fold.
    destruct (gtb (foldState sq + foldSpeed sq) (2 * PI)) eqn:E.
    + apply gtb_true in E. split; [reflexivity | lra].
    + apply gtb_false in E. split; [lra | reflexivity].
Qed.

Lemma fold_phase_in_closed_range_witness :
  exists s0 s,
    constructor 800 600 1 (fun _ => 0) = Ok s0 /\
    run [Frame; VisibilityChange true; Frame] s0 = Ok s /\
    Forall (fun sq => 0 <= foldState sq <= 2 * PI) (squares s).
Proof.
  assert (H8 : 0 <= 800) by lra.
  assert (H6 : 0 <= 600) by lra.
  assert (Hr : random (fun _ => 0)) by (intros n; lra).
  assert (Hev : Forall valid_event [Frame; VisibilityChange true; Frame])
    by (repeat constructor).
  destruct (fold_phase_in_closed_range 800 600 1 (fun _ => 0)
              [Frame; VisibilityChange true; Frame] H8 H6 Hr Hev)
    as (s0 & s & s1 & H0 & H1 & H2 & _).
  exists s0, s. auto.
Defined.

(** C5 is false as stated, on the numbers of the program.  [Math.random]
    returning [0x1.21fb54442d7c8p-2] (0.2831853071796755) for the fold
    phase and 0.5 for the fold speed, the speed is 0.01 and the 600th tick
    brings the phase to [2 * Math.PI] exactly; the test
    [foldState > 2 * Math.PI] fails, the phase is kept and is not below
    [2 * Math.PI]. *)
Lemma fold_phase_counterexample :
  let r_state := 0x1.21fb54442d7c8p-2%float in
  let r_speed := 0x1p-1%float in
  let phase := fold_ticks_f64 600 (foldState_f64 r_state) (foldSpeed_f64 r_speed) in
  PrimFloat.leb 0 r_state = true /\ PrimFloat.ltb r_state 1 = true /\
  PrimFloat.leb 0 r_speed = true /\ PrimFloat.ltb r_speed 1 = true /\
  PrimFloat.eqb (foldSpeed_f64 r_speed) 0x1.47ae147ae147bp-7 = true /\
  PrimFloat.eqb phase (PrimFloat.mul 2 Math_PI) = true /\
  PrimFloat.ltb phase (PrimFloat.mul 2 Math_PI) = false /\
  PrimFloat.eqb (fold_animation_f64 phase (foldSpeed_f64 r_speed)) 0 = true.
Proof. vm_compute. repeat split. Qed.

(** ** C6: rotation *)

(** C6, as amended.  The angular velocity of an element never changes and
    every tick adds it to the rotation angle, so between tick [m] and a
    later tick [n] the angle changes by [n - m] times that velocity: the
    angles never decrease when the velocity is not negative, and never
    increase when it is not positive. *)
Theorem rotation_advances_by_constant_speed
  (this : Engine) (i : nat) (sq : Square) (m n : nat) :
  nth_error (squares this) i = Some sq ->
  (m <= n)%nat ->
  exists sm sn sqm sqn,
    ticks m this = Ok sm /\ nth_error (squares sm) i = Some sqm /\
    ticks n this = Ok sn /\ nth_error (squares sn) i = Some sqn /\
    rotationSpeed sqm = rotationSpeed sq /\
    rotationSpeed sqn = rotationSpeed sq /\
    rotation sqn - rotation sqm = INR (n - m) * rotationSpeed sq /\
    (0 <= rotationSpeed sq -> rotation sqm <= rotation sqn) /\
    (rotationSpeed sq <= 0 -> rotation sqn <= rotation sqm).
Proof.
  intros Hi Hmn.
  destruct (nth_error_after_ticks m this i sq Hi) as (sqm & Hm & Hvm & Hrm).
  destruct (nth_error_after_ticks n this i sq Hi) as (sqn & Hn & Hvn & Hrn).
  exists (after_ticks m this), (after_ticks n this), sqm, sqn.
  rewrite !ticks_ok.
  assert (rotation sqn - rotation sqm = INR (n - m) * rotationSpeed sq) as Hd.
  { rewrite Hrm, Hrn, minus_INR by exact Hmn. lra. }
  pose proof (pos_INR (n - m)) as Hpos.
  repeat split; try assumption; intros Hsign; nra.
Qed.

Lemma rotation_advances_witness :
  exists sqm sqn sm sn,
    ticks 1 edge_engine = Ok sm /\ nth_error (squares sm) 0 = Some sqm /\
    ticks 3 edge_engine = Ok sn /\ nth_error (squares sn) 0 = Some sqn /\
    rotation sqn - rotation sqm = INR 2 * 0.005.
Proof.
  assert (Hi : nth_error (squares edge_engine) 0 = Some edge_square)
    by reflexivity.
  assert (Hmn : (1 <= 3)%nat) by lia.
  destruct (rotation_advances_by_constant_speed edge_engine 0 edge_square 1 3
              Hi Hmn)
    as (sm & sn & sqm & sqn & H1 & H2 & H3 & H4 & _ & _ & H5 & _).
  exists sqm, sqn, sm, sn. auto.
Defined.

(** C6 is false as stated: the angular velocity of this created element
    is negative and its rotation angle decreases. *)
Lemma rotation_counterexample :
  random (fun _ => 0) /\
  exists s sq sq',
    nth_error (squares origin_engine) 0 = Some sq /\
    ticks 1 origin_engine = Ok s /\
    nth_error (squares s) 0 = Some sq' /\
    rotationSpeed sq = -0.01 /\
    rotation sq' < rotation sq.
Proof.
  split; [exact zero_random|].
  destruct origin_engine_squares as [rest Hsq].
  exists (after_ticks 1 origin_engine), origin_square,
    (updated (ticked origin_engine) 0 origin_square).
  split; [rewrite Hsq; reflexivity|].
  split; [apply ticks_ok|].
  cbn [after_ticks]. rewrite nth_error_after_update, Hsq.
  split; [reflexivity|].
  cbn [updated rotation rotationSpeed origin_square new_square].
  split; lra.
Qed.

(** ** C7: no arithmetic failure *)

(** C7.  On a surface of non-negative size, [update], [draw] and [animate]
    return normally.  Where the pointer is exactly at the displayed
    position of an element the distance is 0, nothing is divided by it and
    no repulsion is applied.  On a surface of width 0 no vertical grid line
    is drawn, on one of height 0 no horizontal one, and a surface with a
    side of 0 shows no point at all. *)
Theorem frame_never_raises (this : Engine) :
  nonneg_surface this ->
  (exists s, update this = Ok s) /\
  (exists cmds, draw this = Ok cmds) /\
  (exists s, animate this = Ok s) /\
  (forall i sq,
      mouseX this = osc_x this sq -> mouseY this = osc_y this sq ->
      pointer_dist this sq = 0 /\
      exists sq',
        update_square this i sq = Ok sq' /\
        baseX sq' = wrap (width this) (size sq) (baseX sq + drift_x this i) /\
        baseY sq' = wrap (height this) (size sq) (baseY sq + drift_y this i)) /\
  (width this = 0 -> vertical_lines this = Ok []) /\
  (height this = 0 -> horizontal_lines this = Ok []) /\
  (width this = 0 \/ height this = 0 ->
   width this * height this = 0 /\ forall px py, ~ on_surface this px py).
Proof.
  intros Hs.
  split; [eexists; apply update_ok|].
  split; [now apply draw_ok|].
  split.
  { destruct (animate_ok this Hs) as [cmds [_ ->]]. eexists; reflexivity. }
  split.
  { intros i sq Hx Hy.
    assert (pointer_dist this sq = 0) as Hd.
    { unfold pointer_dist. rewrite Hx, Hy.
      replace ((osc_x this sq - osc_x this sq) * (osc_x this sq - osc_x this sq)
               + (osc_y this sq - osc_y this sq) * (osc_y this sq - osc_y this sq))
        with 0 by ring.
      apply sqrt_0. }
    split; [exact Hd|]. exists (updated this i sq).
    split; [apply update_square_ok|].
    assert (repelled this sq = false) as Hrep
        by (apply repelled_false; right; lra).
    cbn [updated baseX baseY]. unfold push_x, push_y. rewrite Hrep.
    split; lra. }
  split.
  { intros Hw. unfold vertical_lines. apply grid_loop_empty. lra. }
  split.
  { intros Hh. unfold horizontal_lines. apply grid_loop_empty. lra. }
  intros Hz. split.
  - destruct Hz as [-> | ->]; ring.
  - intros px py [Hx Hy]. destruct Hz as [Hz | Hz]; rewrite Hz in *; lra.
Qed.

Lemma frame_never_raises_witness :
  nonneg_surface (init 0 0 1 (fun _ => 0) fresh) /\
  (exists s, update (init 0 0 1 (fun _ => 0) fresh) = Ok s) /\
  (exists cmds, draw (init 0 0 1 (fun _ => 0) fresh) = Ok cmds).
Proof.
  assert (Hs : nonneg_surface (init 0 0 1 (fun _ => 0) fresh))
    by (split; cbn; lra).
  split; [exact Hs|].
  destruct (frame_never_raises (init 0 0 1 (fun _ => 0) fresh) Hs)
    as (H1 & H2 & _).
  split; assumption.
Defined.

(** ** C8: regeneration *)

(** C8.  A regeneration of the element set, by the resize listener or by
    [init], yields exactly 40 elements, sorted by ascending layer, every
    base position within the new surface; the elements are those the loop
    of [createSquares] has just built, whatever the set was before. *)
Theorem regeneration_fresh_sorted_bounded
  (w h d : R) (rnd : nat -> R) (this : Engine) :
  0 <= w -> 0 <= h -> random rnd ->
  step (Resize w h d rnd) this = Ok (init w h d rnd this) /\
  width (init w h d rnd this) = w /\
  height (init w h d rnd this) = h /\
  List.length (squares (init w h d rnd this)) = 40%nat /\
  StronglySorted layer_le (squares (init w h d rnd this)) /\
  Forall (fun sq => 0 <= baseX sq <= w /\ 0 <= baseY sq <= h)
    (squares (init w h d rnd this)) /\
  Permutation
    (map (new_square (resize w h d this) rnd) (seq 0 numSquares))
    (squares (init w h d rnd this)) /\
  (forall other : Engine,
      squares (init w h d rnd other) = squares (init w h d rnd this)).
Proof.
  intros Hw Hh Hr.
  split; [reflexivity|]. split; [reflexivity|]. split; [reflexivity|].
  unfold init. rewrite createSquares_squares.
  split; [|split; [|split; [|split]]].
  - rewrite <- createSquares_squares. apply createSquares_length.
  - apply sort_sorted.
  - pose proof (createSquares_created rnd (resize w h d this) Hr) as Hc.
    rewrite createSquares_squares in Hc.
    eapply Forall_impl; [|apply Hc; split; assumption].
    intros sq [_ _ _ _ Hx Hy _ _ _]. split; [exact Hx | exact Hy].
  - apply sort_perm.
  - intros other. reflexivity.
Qed.

Lemma regeneration_witness :
  (0 <= 400 /\ 0 <= 300 /\ random (fun _ => 0)) /\
  List.length (squares (init 400 300 1 (fun _ => 0) fresh)) = 40%nat.
Proof.
  assert (H4 : 0 <= 400) by lra.
  assert (H3 : 0 <= 300) by lra.
  assert (Hr : random (fun _ => 0)) by (intros n; lra).
  split; [auto|].
  apply (regeneration_fresh_sorted_bounded 400 300 1 (fun _ => 0) fresh H4 H3 Hr).
Defined.

(** ** C9: pause and resume *)

(** C9.  Hiding the page pauses the loop without touching the frame
    counter or the elements, however many requested frames come due while
    it is hidden; showing it again runs the next tick from that state: the
    counter goes on from its value at the pause, by one, and the elements
    are those of one [update] of the state at the pause. *)
Theorem pause_resume_continues (this : Engine) (k : nat) :
  nonneg_surface this ->
  exists paused resumed next,
    run (VisibilityChange true :: repeat Frame k) this = Ok paused /\
    isRunning paused = false /\
    time paused = time this /\
    squares paused = squares this /\
    step (VisibilityChange false) paused = Ok resumed /\
    isRunning resumed = true /\
    update this = Ok next /\
    time resumed = S (time this) /\
    squares resumed = squares next.
Proof.
  intros Hs. cbn [run step negb set_running isRunning bind].
  destruct (paused_frames k (set_running false this) eq_refl)
    as (p & Hrun & Hr & Hm).
  assert (same_motion this p) as Hm'.
  { eapply same_motion_trans; [|exact Hm]. repeat split. }
  destruct Hm' as (Hsq & Ht & Hmx & Hmy & Hw & Hh).
  assert (nonneg_surface (set_running true p)) as Hs'.
  { unfold nonneg_surface. cbn [set_running width height].
    rewrite <- Hw, <- Hh. exact Hs. }
  destruct (animate_ok (set_running true p) Hs') as [cmds [_ Ha]].
  cbn [set_running isRunning] in Ha.
  exists p,
    (painted cmds (S (pending (set_running true p)))
       (after_update (set_running true p))),
    (after_update this).
  split; [exact Hrun|]. split; [exact Hr|].
  split; [symmetry; exact Ht|]. split; [symmetry; exact Hsq|].
  split; [exact Ha|]. split; [reflexivity|].
  split; [apply update_ok|].
  assert (same_motion (after_update (set_running true p)) (after_update this))
    as (Ksq & Kt & _).
  { apply after_update_ext. repeat split; cbn [set_running squares time mouseX
      mouseY width height]; congruence. }
  split; [exact Kt | exact Ksq].
Qed.

Lemma pause_resume_continues_witness :
  nonneg_surface edge_engine /\
  exists paused resumed,
    run (VisibilityChange true :: repeat Frame 5) edge_engine = Ok paused /\
    time paused = 0%nat /\
    step (VisibilityChange false) paused = Ok resumed /\
    time resumed = 1%nat.
Proof.
  assert (Hs : nonneg_surface edge_engine) by (split; cbn; lra).
  split; [exact Hs|].
  destruct (pause_resume_continues edge_engine 5 Hs)
    as (paused & resumed & next & H1 & _ & H2 & _ & H3 & _ & _ & H4 & _).
  exists paused, resumed. auto.
Defined.

(** ** C10: the pointer before any mouse move *)



(** * Further properties *)

(** ** Events and invariants of the scene *)

(** An invariant of the scene that [update] and a regeneration keep is
    kept by every event, and no event raises. *)
Lemma run_preserves (I : Engine -> Prop) :
  (forall this, I this -> nonneg_surface this) ->
  (forall a b, same_scene a b -> I a -> I b) ->
  (forall this, I this -> I (after_update this)) ->
  (forall w h d rnd this,
      0 <= w -> 0 <= h -> random rnd -> I (init w h d rnd this)) ->
  forall evs this,
    Forall valid_event evs -> I this ->
    exists s, run evs this = Ok s /\ I s.
Proof.
  intros Hsurf Hext Hupd Hinit.
  assert (Hanim : forall this, I this -> exists s, animate this = Ok s /\ I s).
  { intros this HI. destruct (animate_ok this (Hsurf _ HI)) as [cmds [_ ->]].
    eexists; split; [reflexivity|].
    destruct (isRunning this); [|exact HI].
    apply (Hext (after_update this)); [repeat split | now apply Hupd]. }
  induction evs as [|e evs IH]; intros this Hev HI; cbn [run]; [eauto|].
  inversion Hev as [|? ? He Hevs]; subst.
  assert (exists s1, step e this = Ok s1 /\ I s1) as (s1 & -> & HI1).
  { destruct e as [|w h d rnd|cx cy l t|hidden|]; cbn [step].
    - destruct (pending this) as [|n]; [eauto|].
      apply Hanim. apply (Hext this); [repeat split | exact HI].
    - destruct He as (Hw & Hh & Hr). eexists; split; [reflexivity|].
      now apply Hinit.
    - eexists; split; [reflexivity|].
      apply (Hext this); [repeat split | exact HI].
    - cbn [set_running isRunning]. destruct hidden; cbn [negb].
      + eexists; split; [reflexivity|].
        apply (Hext this); [repeat split | exact HI].
      + apply Hanim. apply (Hext this); [repeat split | exact HI].
    - eexists; split; [reflexivity|].
      apply (Hext this); [repeat split | exact HI]. }
  cbn [bind]. now apply IH.
Qed.

Lemma constructor_preserves (I : Engine -> Prop) :
  (forall this, I this -> nonneg_surface this) ->
  (forall a b, same_scene a b -> I a -> I b) ->
  (forall this, I this -> I (after_update this)) ->
  (forall w h d rnd this,
      0 <= w -> 0 <= h -> random rnd -> I (init w h d rnd this)) ->
  forall w h d rnd evs,
    0 <= w -> 0 <= h -> random rnd -> Forall valid_event evs ->
    exists s0 s,
      constructor w h d rnd = Ok s0 /\ run evs s0 = Ok s /\ I s.
Proof.
  intros Hsurf Hext Hupd Hinit w h d rnd evs Hw Hh Hr Hev.
  pose proof (Hinit w h d rnd fresh Hw Hh Hr) as HI.
  destruct (animate_ok _ (Hsurf _ HI)) as [cmds [_ Ha]].
  change (isRunning (init w h d rnd fresh)) with true in Ha. cbv iota in Ha.
  unfold constructor. rewrite Ha.
  destruct (run_preserves I Hsurf Hext Hupd Hinit evs
              (painted cmds (S (pending (after_update (init w h d rnd fresh))))
                 (after_update (init w h d rnd fresh))) Hev)
    as (s & Hs & HIs).
  { apply (Hext (after_update (init w h d rnd fresh))); [repeat split|].
    now apply Hupd. }
  eexists; exists s. split; [reflexivity|]. split; assumption.
Qed.

Lemma new_square_parameters (this : Engine) (rnd : nat -> R) (i : nat) :
  random rnd -> parameters (new_square this rnd i).
Proof.
  intros Hr. pose proof PI_RGT_0 as Hpi.
  assert (Hfloor : forall j (n : Z),
             (0 < n)%Z ->
             (0 <= Zfloor (rnd (i * draws_per_square + j)%nat * IZR n) < n)%Z).
  { intros j n Hn. pose proof (Hr (i * draws_per_square + j)%nat) as Hj.
    apply IZR_lt in Hn. split.
    - apply Zfloor_lub. cbn. nra.
    - pose proof (Zfloor_bound (rnd (i * draws_per_square + j)%nat * IZR n)) as Hb.
      apply lt_IZR. nra. }
  constructor;
    cbn [new_square size rotationSpeed color opacity phaseX phaseY speedX
         speedY amplitudeX amplitudeY foldSpeed layer];
    try (match goal with
         | |- context [rnd ?n] => pose proof (Hr n); nra
         end).
  - replace (INR (List.length colorKeys)) with (IZR 6) by (cbn; lra).
    destruct (Hfloor 5%nat 6%Z ltac:(lia)) as [Hlo Hhi].
    unfold index.
    destruct (Zfloor (rnd (i * draws_per_square + 5)%nat * 6)) as [|p|p];
      [| |lia].
    + exists pink. cbn. auto.
    + assert (Hp : (Z.pos p = 1 \/ Z.pos p = 2 \/ Z.pos p = 3 \/ Z.pos p = 4
                    \/ Z.pos p = 5)%Z) by lia.
      destruct Hp as [Hp|[Hp|[Hp|[Hp|Hp]]]]; rewrite Hp; cbn;
        [exists green | exists yellow | exists blue | exists purple
         | exists orange]; cbn; auto 10.
  - destruct (Hfloor 17%nat 3%Z ltac:(lia)). lia.
Qed.

Lemma updated_same_parameters (this : Engine) (i : nat) (sq : Square) :
  same_parameters (updated this i sq) sq.
Proof. repeat split. Qed.

Lemma same_parameters_range (a b : Square) :
  same_parameters a b -> parameters b -> parameters a.
Proof.
  intros (H1 & H2 & H3 & H4 & H5 & H6 & H7 & H8 & H9 & H10 & H11 & H12) [].
  constructor;
    rewrite ?H1, ?H2, ?H3, ?H4, ?H5, ?H6, ?H7, ?H8, ?H9, ?H10, ?H11, ?H12;
    assumption.
Qed.

Lemma map_layer_map_from (this : Engine) (l : list Square) :
  forall i, map layer (map_from (updated this) i l) = map layer l.
Proof. induction l as [|a l IH]; intros i; cbn; [reflexivity | now rewrite IH]. Qed.

(** The order by layer only depends on the layers. *)
Lemma sorted_by_layers (l : list Square) :
  forall l',
    map layer l' = map layer l ->
    StronglySorted layer_le l -> StronglySorted layer_le l'.
Proof.
  induction l as [|a l IH]; intros [|a' l'] Hmap Hs; cbn in Hmap;
    try discriminate; [constructor|].
  injection Hmap as Ha Hl. inversion Hs as [|? ? Hs' Hall]; subst.
  constructor; [now apply IH|].
  clear IH Hs Hs'. revert l' Hl.
  induction Hall as [|b l Hb Hall IH]; intros [|b' l'] Hl; cbn in Hl;
    try discriminate; constructor.
  - injection Hl as Hb' _. unfold layer_le in *. lia.
  - injection Hl as _ Hl. now apply IH.
Qed.

Lemma osc_x_near (this : Engine) (sq : Square) :
  0 <= amplitudeX sq ->
  baseX sq - amplitudeX sq <= osc_x this sq <= baseX sq + amplitudeX sq.
Proof.
  intros Ha. unfold osc_x.
  pose proof (SIN_bound (INR (time this) * 0.001 * speedX sq + phaseX sq)). nra.
Qed.

Lemma osc_y_near (this : Engine) (sq : Square) :
  0 <= amplitudeY sq ->
  baseY sq - amplitudeY sq <= osc_y this sq <= baseY sq + amplitudeY sq.
Proof.
  intros Ha. unfold osc_y.
  pose proof (COS_bound (INR (time this) * 0.001 * speedY sq + phaseY sq)). nra.
Qed.

Lemma scene_invariant_ext (a b : Engine) :
  same_scene a b -> scene_invariant a -> scene_invariant b.
Proof.
  intros (Hsq & Hw & Hh) (Hinv & Hlen & Hsort & Hpar & Hshown).
  split; [now apply (invariant_ext a)|].
  rewrite <- Hsq. repeat split; try assumption.
  eapply Forall_impl; [|exact Hshown].
  intros sq. unfold shown_near. now rewrite Hw, Hh.
Qed.

Lemma scene_invariant_update (this : Engine) :
  scene_invariant this -> scene_invariant (after_update this).
Proof.
  intros (Hinv & Hlen & Hsort & Hpar & Hshown).
  split; [now apply after_update_invariant|].
  unfold after_update. cbn [with_squares squares width height].
  split; [now rewrite length_map_from|].
  split; [apply (sorted_by_layers (squares this));
          [apply map_layer_map_from | exact Hsort]|].
  split.
  - eapply Forall_map_from; [|exact Hpar].
    intros i sq Hsq.
    apply (same_parameters_range _ sq); [apply updated_same_parameters | exact Hsq].
  - destruct Hinv as [_ Hsound].
    assert (Forall (fun sq => sound this sq /\ parameters sq) (squares this))
      as Hboth by (apply Forall_and; assumption).
    eapply Forall_map_from; [|exact Hboth].
    intros i sq [[_ [Hbx Hby] _ _ _] [_ _ _ _ _ _ _ _ Hax Hay _ _]].
    unfold shown_near.
    cbn [updated x y size].
    change (width (with_squares (ticked this) (S (time this))
                     (map_from (updated (ticked this)) 0 (squares this))))
      with (width this).
    change (height (with_squares (ticked this) (S (time this))
                      (map_from (updated (ticked this)) 0 (squares this))))
      with (height this).
    pose proof (osc_x_near (ticked this) sq ltac:(lra)).
    pose proof (osc_y_near (ticked this) sq ltac:(lra)).
    lra.
Qed.

Lemma scene_invariant_init (w h d : R) (rnd : nat -> R) (this : Engine) :
  0 <= w -> 0 <= h -> random rnd -> scene_invariant (init w h d rnd this).
Proof.
  intros Hw Hh Hr.
  split; [now apply init_invariant|].
  split; [apply createSquares_length|].
  split; [unfold init; rewrite createSquares_squares; apply sort_sorted|].
  split.
  - apply createSquares_Forall. intros i. now apply new_square_parameters.
  - assert (nonneg_surface (resize w h d this)) as Hs by (split; assumption).
    eapply Forall_impl; [|apply (createSquares_created rnd _ Hr Hs)].
    intros sq [Hx Hy Hsz _ _ _ _ _ _]. unfold shown_near.
    change (width (init w h d rnd this)) with w.
    change (height (init w h d rnd this)) with h.
    change (width (createSquares rnd (resize w h d this))) with w in Hx.
    change (height (createSquares rnd (resize w h d this))) with h in Hy.
    lra.
Qed.

(** The scene invariant holds in every state that the constructor and any
    events after it lead to, and none of them raises. *)
Lemma reachable_scene (w h d : R) (rnd : nat -> R) (evs : list Event) :
  0 <= w -> 0 <= h -> random rnd -> Forall valid_event evs ->
  exists s0 s,
    constructor w h d rnd = Ok s0 /\ run evs s0 = Ok s /\ scene_invariant s.
Proof.
  apply (constructor_preserves scene_invariant).
  - intros this [[Hs _] _]. exact Hs.
  - apply scene_invariant_ext.
  - apply scene_invariant_update.
  - apply scene_invariant_init.
Qed.

(** X1.  In every state that the constructor and any events after it lead
    to, there are exactly 40 elements and they are in ascending order of
    layer: [update] keeps the order that [createSquares] sorted them in. *)
Theorem elements_stay_forty_and_sorted
  (w h d : R) (rnd : nat -> R) (evs : list Event) :
  0 <= w -> 0 <= h -> random rnd -> Forall valid_event evs ->
  exists s0 s,
    constructor w h d rnd = Ok s0 /\ run evs s0 = Ok s /\
    List.length (squares s) = 40%nat /\
    StronglySorted layer_le (squares s).
Proof.
  intros Hw Hh Hr Hev.
  destruct (reachable_scene w h d rnd evs Hw Hh Hr Hev)
    as (s0 & s & Hs0 & Hs & _ & Hlen & Hsort & _).
  exists s0, s. auto.
Qed.

Lemma elements_stay_forty_and_sorted_witness :
  exists s0 s,
    constructor 800 600 1 (fun _ => 0) = Ok s0 /\
    run [Frame; MouseMove 10 10 0 0; Frame] s0 = Ok s /\
    List.length (squares s) = 40%nat.
Proof.
  assert (H8 : 0 <= 800) by lra.
  assert (H6 : 0 <= 600) by lra.
  assert (Hev : Forall valid_event [Frame; MouseMove 10 10 0 0; Frame])
    by (repeat constructor).
  destruct (elements_stay_forty_and_sorted 800 600 1 (fun _ => 0)
              [Frame; MouseMove 10 10 0 0; Frame] H8 H6 zero_random Hev)
    as (s0 & s & H0 & H1 & H2 & _).
  exists s0, s. auto.
Defined.

Lemma parameters_are_within (sq : Square) :
  parameters sq -> parameters_within sq.
Proof. intros []. constructor; try assumption; lra. Qed.

(** X2.  In every state that the constructor and any events after it lead
    to, the creation-time parameters of every element are within the
    limits of the expressions that [createSquares] draws them by: size
    from 20 to 80, opacity from 0.1 to 0.5, speeds from 0.3 to 0.8,
    amplitudes from 20 to 60, phases from 0 to 2 pi, angular velocity from
    -0.01 to 0.01, fold speed from 0.005 to 0.015, layer 0, 1 or 2; the
    colour is one of the six of [colorKeys], never [undefined]. *)
Theorem parameters_stay_in_range
  (w h d : R) (rnd : nat -> R) (evs : list Event) :
  0 <= w -> 0 <= h -> random rnd -> Forall valid_event evs ->
  exists s0 s,
    constructor w h d rnd = Ok s0 /\ run evs s0 = Ok s /\
    Forall parameters_within (squares s).
Proof.
  intros Hw Hh Hr Hev.
  destruct (reachable_scene w h d rnd evs Hw Hh Hr Hev)
    as (s0 & s & Hs0 & Hs & _ & _ & _ & Hpar & _).
  exists s0, s. split; [exact Hs0|]. split; [exact Hs|].
  eapply Forall_impl; [|exact Hpar]. apply parameters_are_within.
Qed.

Lemma parameters_stay_in_range_witness :
  exists s0 s,
    constructor 800 600 1 (fun _ => 0) = Ok s0 /\
    run [Frame; VisibilityChange true; Destroy] s0 = Ok s /\
    Forall parameters_within (squares s).
Proof.
  assert (H8 : 0 <= 800) by lra.
  assert (H6 : 0 <= 600) by lra.
  assert (Hev : Forall valid_event [Frame; VisibilityChange true; Destroy])
    by (repeat constructor).
  exact (parameters_stay_in_range 800 600 1 (fun _ => 0)
           [Frame; VisibilityChange true; Destroy] H8 H6 zero_random Hev).
Defined.

(** X3.  In every state that the constructor and any events after it lead
    to, the displayed position of every element is less than 60.5 outside
    the padded bounds of the surface: the oscillation is at most the
    amplitude, which is below 60, and the base position is less than 0.5
    outside the padded bounds. *)
Theorem displayed_position_stays_near
  (w h d : R) (rnd : nat -> R) (evs : list Event) :
  0 <= w -> 0 <= h -> random rnd -> Forall valid_event evs ->
  exists s0 s,
    constructor w h d rnd = Ok s0 /\ run evs s0 = Ok s /\
    Forall (fun sq =>
              - size sq - 60.5 < x sq < width s + size sq + 60.5 /\
              - size sq - 60.5 < y sq < height s + size sq + 60.5)
      (squares s).
Proof.
  intros Hw Hh Hr Hev.
  destruct (reachable_scene w h d rnd evs Hw Hh Hr Hev)
    as (s0 & s & Hs0 & Hs & _ & _ & _ & _ & Hshown).
  exists s0, s. auto.
Qed.

Lemma displayed_position_stays_near_witness :
  exists s0 s,
    constructor 800 600 1 (fun _ => 0) = Ok s0 /\
    run [Frame; Frame] s0 = Ok s /\
    Forall (fun sq =>
              - size sq - 60.5 < x sq < width s + size sq + 60.5 /\
              - size sq - 60.5 < y sq < height s + size sq + 60.5)
      (squares s).
Proof.
  assert (H8 : 0 <= 800) by lra.
  assert (H6 : 0 <= 600) by lra.
  assert (Hev : Forall valid_event [Frame; Frame]) by (repeat constructor).
  exact (displayed_position_stays_near 800 600 1 (fun _ => 0)
           [Frame; Frame] H8 H6 zero_random Hev).
Defined.

(** ** What a tick leaves alone *)

Lemma same_parameters_trans (a b c : Square) :
  same_parameters a b -> same_parameters b c -> same_parameters a c.
Proof.
  intros (H1 & H2 & H3 & H4 & H5 & H6 & H7 & H8 & H9 & H10 & H11 & H12)
         (K1 & K2 & K3 & K4 & K5 & K6 & K7 & K8 & K9 & K10 & K11 & K12).
  repeat split; congruence.
Qed.

Lemma after_ticks_fields (n : nat) :
  forall this,
    time (after_ticks n this) = (time this + n)%nat /\
    width (after_ticks n this) = width this /\
    height (after_ticks n this) = height this /\
    mouseX (after_ticks n this) = mouseX this /\
    mouseY (after_ticks n this) = mouseY this /\
    isRunning (after_ticks n this) = isRunning this /\
    pending (after_ticks n this) = pending this /\
    ctx (after_ticks n this) = ctx this.
Proof.
  induction n as [|n IH]; intros this; cbn [after_ticks].
  - rewrite Nat.add_0_r. repeat split.
  - destruct (IH (after_update this)) as (H1 & H2 & H3 & H4 & H5 & H6 & H7 & H8).
    rewrite H1, H2, H3, H4, H5, H6, H7, H8.
    repeat split. cbn. lia.
Qed.

Lemma nth_error_after_ticks_parameters (n : nat) :
  forall this i sq,
    nth_error (squares this) i = Some sq ->
    exists sq',
      nth_error (squares (after_ticks n this)) i = Some sq' /\
      same_parameters sq' sq.
Proof.
  induction n as [|n IH]; intros this i sq Hi; cbn [after_ticks].
  - exists sq. split; [exact Hi | repeat split].
  - destruct (IH (after_update this) i (updated (ticked this) i sq))
      as (sq' & Hn & Hp).
    { rewrite nth_error_after_update, Hi. reflexivity. }
    exists sq'. split; [exact Hn|].
    eapply same_parameters_trans; [exact Hp | apply updated_same_parameters].
Qed.

(** X4.  Any number of ticks leaves the number of elements, the order of
    the elements and, of each element, the size, colour, opacity, phases,
    speeds, amplitudes, angular velocity, fold speed and layer as they
    are; of the engine it changes the frame counter, by one per tick, and
    nothing else but the elements. *)
Theorem ticks_keep_parameters
  (this : Engine) (n i : nat) (sq : Square) :
  nth_error (squares this) i = Some sq ->
  exists s sq',
    ticks n this = Ok s /\
    List.length (squares s) = List.length (squares this) /\
    nth_error (squares s) i = Some sq' /\
    same_parameters sq' sq /\
    time s = (time this + n)%nat /\
    width s = width this /\ height s = height this /\
    mouseX s = mouseX this /\ mouseY s = mouseY this /\
    isRunning s = isRunning this /\ pending s = pending this /\
    ctx s = ctx this.
Proof.
  intros Hi.
  destruct (nth_error_after_ticks_parameters n this i sq Hi) as (sq' & Hn & Hp).
  exists (after_ticks n this), sq'.
  split; [apply ticks_ok|]. split; [apply length_after_ticks|].
  split; [exact Hn|]. split; [exact Hp|]. apply after_ticks_fields.
Qed.

Lemma ticks_keep_parameters_witness :
  exists s sq',
    ticks 5 edge_engine = Ok s /\
    nth_error (squares s) 0 = Some sq' /\
    same_parameters sq' edge_square /\
    time s = 5%nat.
Proof.
  assert (Hi : nth_error (squares edge_engine) 0 = Some edge_square)
    by reflexivity.
  destruct (ticks_keep_parameters edge_engine 5 0 edge_square Hi)
    as (s & sq' & H1 & _ & H2 & H3 & H4 & _).
  exists s, sq'. auto.
Defined.

(** ** The calls of a frame *)

Lemma scoped_plain (cmds : list Cmd) :
  Forall (fun c => plain c = true) cmds ->
  forall d rest, scoped d (cmds ++ rest) = scoped d rest.
Proof.
  induction 1 as [|c cmds Hc _ IH]; intros d rest; [reflexivity|].
  cbn [app]. destruct c; try discriminate Hc; cbn [scoped]; apply IH.
Qed.

Lemma drawFoldedSquare_scoped (sq : Square) (cs : list Cmd) :
  drawFoldedSquare sq = Ok cs ->
  forall d rest, scoped d (cs ++ rest) = scoped d rest.
Proof.
  unfold drawFoldedSquare. cbn zeta.
  rewrite !div_ok by lra. cbn [bind]. intros [= <-] d rest.
  destruct (gtb (fold_amount sq) 0.1), (gtb (fold_amount sq) 0.05);
    reflexivity.
Qed.

Lemma draw_squares_scoped (l : list Square) :
  forall cs,
    draw_squares l = Ok cs ->
    forall d rest, scoped d (cs ++ rest) = scoped d rest.
Proof.
  induction l as [|a l IH]; intros cs; cbn [draw_squares].
  - intros [= <-] d rest. reflexivity.
  - destruct (drawFoldedSquare a) as [ca|e] eqn:Ha; cbn [bind]; [|discriminate].
    destruct (draw_squares l) as [cl|e] eqn:Hl; cbn [bind]; [|discriminate].
    intros [= <-] d rest. rewrite <- app_assoc.
    rewrite (drawFoldedSquare_scoped a ca Ha). now apply IH.
Qed.

Lemma grid_loop_Forall (P : Cmd -> Prop) (limit : R) (body : R -> list Cmd) :
  (forall v, Forall P (body v)) ->
  forall fuel v cmds,
    grid_loop fuel limit body v = Ok cmds -> Forall P cmds.
Proof.
  intros Hbody. induction fuel as [|fuel IH]; intros v cmds; cbn [grid_loop];
    [discriminate|].
  destruct (ltb v limit).
  - destruct (grid_loop fuel limit body (v + gridSize)) as [rest|e] eqn:Hrest;
      cbn [bind]; [|discriminate].
    intros [= <-]. apply Forall_app. split; [apply Hbody|].
    exact (IH _ rest Hrest).
  - intros [= <-]. constructor.
Qed.

Lemma drawGridLines_Forall (P : Cmd -> Prop) (this : Engine) (cmds : list Cmd) :
  (forall s, P (strokeStyle s)) -> (forall v, P (lineWidth v)) ->
  P (globalAlpha 0.03) -> P beginPath -> P stroke ->
  (forall a b, P (moveTo a b)) -> (forall a b, P (lineTo a b)) ->
  drawGridLines this = Ok cmds -> Forall P cmds.
Proof.
  intros Hss Hlw Hga Hbp Hst Hmt Hlt. unfold drawGridLines.
  destruct (vertical_lines this) as [vs|e] eqn:Hv; cbn [bind]; [|discriminate].
  destruct (horizontal_lines this) as [hs|e] eqn:Hh; cbn [bind]; [|discriminate].
  intros [= <-].
  repeat (apply Forall_cons; [auto|]).
  apply Forall_app. split.
  - eapply grid_loop_Forall; [|exact Hv].
    intros v. unfold vertical_line. repeat constructor; auto.
  - eapply grid_loop_Forall; [|exact Hh].
    intros v. unfold horizontal_line. repeat constructor; auto.
Qed.

(** X5.  The calls of one [draw] begin with a fill of the whole surface in
    the background colour and end with a fill of the whole surface in the
    vignette gradient; in between, every [translate] and [rotate] is
    inside a [save] that a [restore] closes, and at the end no [save] is
    open: the transform of an element reaches neither the next element nor
    the next frame. *)
Theorem draw_is_scoped (this : Engine) :
  nonneg_surface this ->
  exists cmds mid g,
    draw this = Ok cmds /\
    cmds = fillStyle (Color (Some (colors bg)))
           :: fillRect 0 0 (width this) (height this)
           :: mid ++ [fillStyle g; fillRect 0 0 (width this) (height this)] /\
    g = RadialGradient (width this / 2) (height this / 2) 0
          (width this / 2) (height this / 2)
          (Rmax (width this) (height this) * 0.7)
          [(0, "rgba(30, 31, 26, 0)"%string);
           (1, "rgba(30, 31, 26, 0.4)"%string)] /\
    scoped 0 mid = true /\
    scoped 0 cmds = true.
Proof.
  intros [Hw Hh]. unfold draw.
  destruct (drawGridLines this) as [grid|e] eqn:Hgrid;
    [|destruct (drawGridLines_ok this) as [? Hok]; congruence].
  destruct (draw_squares (squares this)) as [sq|e] eqn:Hsq;
    [|destruct (draw_squares_ok (squares this)) as [? Hok]; congruence].
  cbn [bind]. rewrite !div_ok by lra. cbn [bind].
  unfold createRadialGradient.
  assert (Hmax : 0 <= Rmax (width this) (height this) * 0.7).
  { pose proof (Rmax_l (width this) (height this)). lra. }
  replace (ltb 0 0) with false by (symmetry; apply ltb_false; lra).
  replace (ltb (Rmax (width this) (height this) * 0.7) 0) with false
    by (symmetry; apply ltb_false; lra).
  cbn [orb bind addColorStop app].
  assert (Hplain : Forall (fun c => plain c = true) grid).
  { apply (drawGridLines_Forall _ this grid); auto. }
  assert (Hmid : scoped 0 (grid ++ sq) = true).
  { rewrite (scoped_plain grid Hplain).
    rewrite <- (app_nil_r sq).
    rewrite (draw_squares_scoped _ sq Hsq). reflexivity. }
  eexists; exists (grid ++ sq); eexists.
  split; [reflexivity|].
  split; [cbn [app]; rewrite <- app_assoc; reflexivity|].
  split; [reflexivity|]. split; [exact Hmid|].
  cbn [app scoped]. rewrite (scoped_plain grid Hplain).
  rewrite (draw_squares_scoped _ sq Hsq). reflexivity.
Qed.

Lemma draw_is_scoped_witness :
  exists cmds, draw edge_engine = Ok cmds /\ scoped 0 cmds = true.
Proof.
  assert (Hs : nonneg_surface edge_engine) by (split; cbn; lra).
  destruct (draw_is_scoped edge_engine Hs) as (cmds & mid & g & H1 & _ & _ & _ & H2).
  exists cmds. auto.
Defined.

Lemma fold_amount_bounds (sq : Square) : -0.5 <= fold_amount sq <= 0.5.
Proof.
  unfold fold_amount. pose proof (SIN_bound (foldState sq * PI)). lra.
Qed.

Lemma drawFoldedSquare_alpha (sq : Square) (cs : list Cmd) (a : R) :
  0.1 <= opacity sq < 0.5 ->
  drawFoldedSquare sq = Ok cs -> In (globalAlpha a) cs -> 0 < a < 0.5.
Proof.
  intros Hop. unfold drawFoldedSquare. cbn zeta.
  rewrite !div_ok by lra. cbn [bind]. intros [= <-].
  pose proof (fold_amount_bounds sq) as Hf.
  destruct (gtb (fold_amount sq) 0.1) eqn:E1;
    destruct (gtb (fold_amount sq) 0.05) eqn:E2;
    try (apply gtb_true in E1); try (apply gtb_true in E2);
    cbn [app In]; intros Hin;
    repeat match goal with
           | H : _ \/ _ |- _ => destruct H as [H|H]
           | H : False |- _ => destruct H
           | H : globalAlpha _ = globalAlpha _ |- _ => injection H as <-
           | H : _ = globalAlpha _ |- _ => try discriminate H
           end; nra.
Qed.

Lemma draw_squares_alpha (l : list Square) :
  Forall parameters l ->
  forall cs a,
    draw_squares l = Ok cs -> In (globalAlpha a) cs -> 0 < a < 0.5.
Proof.
  induction 1 as [|sq l Hsq _ IH]; intros cs a; cbn [draw_squares].
  - intros [= <-] [].
  - destruct (drawFoldedSquare sq) as [ca|e] eqn:Ha; cbn [bind]; [|discriminate].
    destruct (draw_squares l) as [cl|e] eqn:Hl; cbn [bind]; [|discriminate].
    intros [= <-] Hin. apply in_app_or in Hin. destruct Hin as [Hin|Hin].
    + destruct Hsq as [_ _ _ Hop _ _ _ _ _ _ _ _].
      now apply (drawFoldedSquare_alpha sq ca).
    + now apply (IH cl).
Qed.

(** X6.  When the opacity of every element is in the range that
    [createSquares] draws it from, every [globalAlpha] that [draw] sets is
    strictly between 0 and 0.5: the grid at 0.03, the faces and borders of
    the elements at the opacity or a fraction of it. *)
Theorem draw_alpha_in_range (this : Engine) (cmds : list Cmd) (a : R) :
  Forall parameters (squares this) ->
  draw this = Ok cmds ->
  In (globalAlpha a) cmds ->
  0 < a < 0.5.
Proof.
  intros Hpar. unfold draw.
  destruct (drawGridLines this) as [grid|e] eqn:Hgrid; cbn [bind]; [|discriminate].
  destruct (draw_squares (squares this)) as [sq|e] eqn:Hsq; cbn [bind];
    [|discriminate].
  destruct (div (width this) 2) as [cx|e]; cbn [bind]; [|discriminate].
  destruct (div (height this) 2) as [cy|e]; cbn [bind]; [|discriminate].
  destruct (createRadialGradient cx cy 0 cx cy
              (Rmax (width this) (height this) * 0.7)) as [g|e];
    cbn [bind]; [|discriminate].
  intros [= <-] Hin.
  cbn [app In] in Hin. destruct Hin as [Hin|[Hin|Hin]]; try discriminate Hin.
  apply in_app_or in Hin. destruct Hin as [Hin|Hin].
  - assert (Forall (fun c => forall v, c = globalAlpha v -> 0 < v < 0.5) grid)
      as HF.
    { apply (drawGridLines_Forall _ this grid); try exact Hgrid;
        try (intros; discriminate).
      intros v [= <-]. lra. }
    rewrite Forall_forall in HF. now apply (HF _ Hin).
  - apply in_app_or in Hin. destruct Hin as [Hin|Hin].
    + now apply (draw_squares_alpha _ Hpar sq).
    + cbn [In] in Hin. destruct Hin as [Hin|[Hin|[]]]; discriminate Hin.
Qed.

Lemma draw_alpha_in_range_witness :
  exists cmds,
    draw origin_engine = Ok cmds /\
    forall a, In (globalAlpha a) cmds -> 0 < a < 0.5.
Proof.
  assert (Hpar : Forall parameters (squares origin_engine)).
  { apply createSquares_Forall. intros i.
    apply new_square_parameters. exact zero_random. }
  assert (Hs : nonneg_surface origin_engine) by (split; cbn; lra).
  destruct (draw_ok origin_engine Hs) as [cmds Hd].
  exists cmds. split; [exact Hd|]. intros a Hin.
  exact (draw_alpha_in_range origin_engine cmds a Hpar Hd Hin).
Defined.

(** ** The grid *)

Lemma grid_loop_positions (limit : R) (body : R -> list Cmd) :
  forall fuel k,
    limit - INR k * gridSize <= INR fuel * gridSize ->
    exists n,
      (k <= n)%nat /\
      grid_loop (S fuel) limit body (INR k * gridSize)
      = Ok (flat_map body (map (fun j => INR j * gridSize) (seq k (n - k)))) /\
      limit <= INR n * gridSize /\
      ((k < n)%nat -> INR n * gridSize - gridSize < limit) /\
      (n = k -> limit <= INR k * gridSize).
Proof.
  unfold gridSize.
  induction fuel as [|fuel IH]; intros k Hk.
  - cbn [INR] in Hk. exists k. split; [lia|]. cbn [grid_loop].
    replace (ltb (INR k * 80) limit) with false
      by (symmetry; apply ltb_false; lra).
    rewrite Nat.sub_diag. cbn. repeat split; try lra; lia.
  - rewrite S_INR in Hk.
    change (grid_loop (S (S fuel)) limit body (INR k * 80))
      with (if ltb (INR k * 80) limit
            then rest <- grid_loop (S fuel) limit body (INR k * 80 + gridSize) ;;
                 Ok (body (INR k * 80) ++ rest)
            else Ok []).
    destruct (ltb (INR k * 80) limit) eqn:E.
    + apply ltb_true in E.
      replace (INR k * 80 + gridSize) with (INR (S k) * 80)
        by (rewrite S_INR; unfold gridSize; ring).
      destruct (IH (S k)) as (n & Hn & Hrun & Hhi & Hlo & _);
        [rewrite S_INR; lra|].
      exists n. split; [lia|]. rewrite Hrun. cbn [bind].
      replace (n - k)%nat with (S (n - S k)) by lia.
      cbn [seq map flat_map]. split; [reflexivity|].
      split; [exact Hhi|]. split.
      * intros _. destruct (Nat.eq_dec n (S k)) as [->|Hne].
        -- rewrite S_INR. lra.
        -- apply Hlo. lia.
      * intros ->. lia.
    + apply ltb_false in E. exists k. split; [lia|].
      rewrite Nat.sub_diag. cbn. repeat split; try lra; lia.
Qed.

Lemma grid_lines_at (limit : R) (body : R -> list Cmd) :
  0 <= limit ->
  exists n,
    grid_loop (grid_fuel limit) limit body 0
    = Ok (flat_map body (grid_positions n)) /\
    INR n * gridSize - gridSize < limit <= INR n * gridSize.
Proof.
  intros Hl. unfold grid_fuel.
  destruct (grid_loop_positions limit body
              (Z.to_nat (up (limit / gridSize))) 0)
    as (n & _ & Hrun & Hhi & Hlo & Hzero).
  { destruct (archimed (limit / gridSize)) as [Hup _]. unfold gridSize in *.
    cbn [INR].
    assert (0 <= up (limit / 80))%Z as Hpos.
    { apply le_IZR. apply Rlt_le. apply Rle_lt_trans with (limit / 80); lra. }
    rewrite INR_IZR_INZ, Z2Nat.id by exact Hpos. lra. }
  exists n. cbn [INR] in Hrun.
  replace (0 * gridSize) with 0 in Hrun by ring.
  rewrite Nat.sub_0_r in Hrun. split; [exact Hrun|].
  split; [|exact Hhi].
  destruct n as [|n]; [cbn [INR]; unfold gridSize; lra | apply Hlo; lia].
Qed.

(** X7.  On a surface of non-negative size, [drawGridLines] draws one
    vertical line for each multiple of 80 that is less than the width, so
    the smallest number [n] with [width <= 80 n], and one horizontal line
    likewise for the height; each line is one path of two points, which
    are at most 5 from the multiple of 80 on one axis and at 0 and at the
    far side of the surface on the other. *)
Theorem grid_lines_count (this : Engine) :
  nonneg_surface this ->
  exists nv nh,
    drawGridLines this
    = Ok ([ strokeStyle (Color (Some (colors white)));
            lineWidth 0.5; globalAlpha 0.03 ]
          ++ flat_map (vertical_line this) (grid_positions nv)
          ++ flat_map (horizontal_line this) (grid_positions nh)) /\
    INR nv * 80 - 80 < width this <= INR nv * 80 /\
    INR nh * 80 - 80 < height this <= INR nh * 80 /\
    (forall v, exists o,
        -5 <= o <= 5 /\
        vertical_line this v
        = [beginPath; moveTo (v + o) 0; lineTo (v - o) (height this); stroke]) /\
    (forall v, exists o,
        -5 <= o <= 5 /\
        horizontal_line this v
        = [beginPath; moveTo 0 (v + o); lineTo (width this) (v - o); stroke]).
Proof.
  intros [Hw Hh].
  destruct (grid_lines_at (width this) (vertical_line this) Hw) as (nv & Hv & Hbv).
  destruct (grid_lines_at (height this) (horizontal_line this) Hh) as (nh & Hhz & Hbh).
  exists nv, nh. unfold drawGridLines, vertical_lines, horizontal_lines.
  rewrite Hv, Hhz. cbn [bind]. unfold gridSize in *.
  split; [reflexivity|]. split; [exact Hbv|]. split; [exact Hbh|]. split.
  - intros v. eexists; split; [|reflexivity].
    pose proof (SIN_bound (INR (time this) * 0.001 + v * 0.01)). lra.
  - intros v. eexists; split; [|reflexivity].
    pose proof (COS_bound (INR (time this) * 0.001 + v * 0.01)). lra.
Qed.

Lemma grid_lines_count_witness :
  exists nv nh,
    INR nv * 80 - 80 < 800 <= INR nv * 80 /\
    INR nh * 80 - 80 < 600 <= INR nh * 80.
Proof.
  assert (Hs : nonneg_surface edge_engine) by (split; cbn; lra).
  destruct (grid_lines_count edge_engine Hs) as (nv & nh & _ & H1 & H2 & _).
  exists nv, nh. split; assumption.
Defined.

(** ** The frame counter and the frame requests *)

Lemma step_time (e : Event) (this : Engine) :
  nonneg_surface this -> valid_event e ->
  exists s,
    step e this = Ok s /\ nonneg_surface s /\
    (time this <= time s <= time this + (if may_tick e then 1 else 0))%nat.
Proof.
  intros Hs He.
  assert (Hanim : forall a, nonneg_surface a -> time a = time this ->
            exists s, animate a = Ok s /\ nonneg_surface s /\
                      (time this <= time s <= time this + 1)%nat).
  { intros a Ha Ht. destruct (animate_ok a Ha) as [cmds [_ ->]].
    eexists; split; [reflexivity|].
    destruct (isRunning a).
    - split; [exact Ha|]. cbn. lia.
    - split; [exact Ha|]. lia. }
  destruct e as [|w h d rnd|cx cy l t|hidden|]; cbn [step may_tick].
  - destruct (pending this) as [|n].
    + exists this. split; [reflexivity|]. split; [exact Hs | lia].
    + now apply Hanim.
  - destruct He as (Hw & Hh & _). eexists; split; [reflexivity|].
    split; [split; assumption | cbn; lia].
  - eexists; split; [reflexivity|]. split; [exact Hs | cbn; lia].
  - cbn [set_running isRunning]. destruct hidden; cbn [negb].
    + eexists; split; [reflexivity|]. split; [exact Hs | cbn; lia].
    + now apply Hanim.
  - eexists; split; [reflexivity|]. split; [exact Hs | cbn; lia].
Qed.

(** X8.  No event resets or lowers the frame counter: after any events it
    is at least what it was, and it has grown by at most one for each frame
    and each show among them; a resize, a mouse move, a hide and a destroy
    leave it as it is. *)
Theorem frame_counter_monotone (this : Engine) (evs : list Event) :
  nonneg_surface this -> Forall valid_event evs ->
  exists s,
    run evs this = Ok s /\
    (time this <= time s
     <= time this + List.length (filter may_tick evs))%nat.
Proof.
  revert this. induction evs as [|e evs IH]; intros this Hs Hev; cbn [run].
  - exists this. split; [reflexivity | cbn; lia].
  - inversion Hev as [|? ? He Hevs]; subst.
    destruct (step_time e this Hs He) as (s1 & -> & Hs1 & Ht1). cbn [bind].
    destruct (IH s1 Hs1 Hevs) as (s & Hrun & Ht).
    exists s. split; [exact Hrun|].
    cbn [filter]. destruct (may_tick e); cbn [List.length]; lia.
Qed.

Lemma frame_counter_monotone_witness :
  exists s,
    run [Resize 400 300 2 (fun _ => 0); MouseMove 5 5 0 0; Frame; Destroy]
      edge_engine = Ok s /\
    (0 <= time s <= 1)%nat.
Proof.
  assert (Hs : nonneg_surface edge_engine) by (split; cbn; lra).
  assert (Hev : Forall valid_event
                  [Resize 400 300 2 (fun _ => 0); MouseMove 5 5 0 0; Frame;
                   Destroy]).
  { constructor; [|repeat constructor].
    cbn. split; [lra|]. split; [lra | exact zero_random]. }
  exact (frame_counter_monotone edge_engine
           [Resize 400 300 2 (fun _ => 0); MouseMove 5 5 0 0; Frame; Destroy]
           Hs Hev).
Defined.

(** While [isRunning] is false, no event but a show runs a tick. *)
Lemma stopped_run (evs : list Event) :
  forall this,
    nonneg_surface this -> isRunning this = false ->
    Forall valid_event evs -> Forall (fun e => ~ is_show e) evs ->
    exists s,
      run evs this = Ok s /\ nonneg_surface s /\ isRunning s = false /\
      time s = time this /\
      (Forall (fun e => ~ is_resize e) evs -> squares s = squares this).
Proof.
  induction evs as [|e evs IH]; intros this Hs Hr Hev Hns; cbn [run].
  - exists this. split; [reflexivity|]. split; [exact Hs|]. split; [exact Hr|].
    split; reflexivity.
  - inversion Hev as [|? ? He Hevs]; subst.
    inversion Hns as [|? ? Hne Hnss]; subst.
    assert (exists s1, step e this = Ok s1 /\ nonneg_surface s1 /\
                       isRunning s1 = false /\ time s1 = time this /\
                       (~ is_resize e -> squares s1 = squares this))
      as (s1 & -> & Hs1 & Hr1 & Ht1 & Hq1).
    { destruct e as [|w h d rnd|cx cy l t|hidden|]; cbn [step].
      - destruct (pending this) as [|n].
        + exists this. repeat split; auto; apply Hs.
        + unfold animate. cbn [painted isRunning]. rewrite Hr. cbn [negb].
          eexists; split; [reflexivity|]. repeat split; auto; apply Hs.
      - destruct He as (Hw & Hh & _). eexists; split; [reflexivity|].
        split; [split; assumption|]. split; [exact Hr|].
        split; [reflexivity|]. intros Hn. exfalso. apply Hn. exact I.
      - eexists; split; [reflexivity|]. repeat split; auto; apply Hs.
      - destruct hidden; [|exfalso; apply Hne; exact I].
        cbn [negb set_running isRunning].
        eexists; split; [reflexivity|]. repeat split; auto; apply Hs.
      - eexists; split; [reflexivity|]. repeat split; auto; apply Hs. }
    cbn [bind].
    destruct (IH s1 Hs1 Hr1 Hevs Hnss) as (s & Hrun & Hss & Hrs & Hts & Hqs).
    exists s. split; [exact Hrun|]. split; [exact Hss|]. split; [exact Hrs|].
    split; [congruence|].
    intros Hnr. inversion Hnr as [|? ? Hnr1 Hnrs]; subst.
    rewrite (Hqs Hnrs). now apply Hq1.
Qed.

(** X9.  After [destroy], frames, resizes, mouse moves and hides run no
    tick: the frame counter stays, and so do the elements unless a resize
    regenerates them.  The visibility listener is still there: the next
    show sets [isRunning] again and runs a tick. *)
Theorem destroy_stops_until_shown (this : Engine) (evs : list Event) :
  nonneg_surface this ->
  Forall valid_event evs -> Forall (fun e => ~ is_show e) evs ->
  exists s r,
    run (Destroy :: evs) this = Ok s /\
    isRunning s = false /\
    time s = time this /\
    (Forall (fun e => ~ is_resize e) evs -> squares s = squares this) /\
    step (VisibilityChange false) s = Ok r /\
    isRunning r = true /\
    time r = S (time this) /\
    pending r = S (pending s).
Proof.
  intros Hs Hev Hns. cbn [run step bind].
  destruct (stopped_run evs (destroy this) Hs eq_refl Hev Hns)
    as (s & Hrun & Hss & Hrs & Hts & Hqs).
  assert (nonneg_surface (set_running true s)) as Hs' by exact Hss.
  destruct (animate_ok (set_running true s) Hs') as [cmds [_ Ha]].
  cbn [set_running isRunning] in Ha.
  exists s. eexists.
  split; [exact Hrun|]. split; [exact Hrs|]. split; [exact Hts|].
  split; [exact Hqs|].
  cbn [step negb set_running isRunning]. split; [exact Ha|].
  split; [reflexivity|]. split; [cbn; now rewrite Hts | reflexivity].
Qed.

Lemma destroy_stops_until_shown_witness :
  exists s r,
    run [Destroy; Frame; MouseMove 3 4 0 0; Frame] edge_engine = Ok s /\
    time s = 0%nat /\
    step (VisibilityChange false) s = Ok r /\
    time r = 1%nat.
Proof.
  assert (Hs : nonneg_surface edge_engine) by (split; cbn; lra).
  assert (Hev : Forall valid_event [Frame; MouseMove 3 4 0 0; Frame])
    by (repeat constructor).
  assert (Hns : Forall (fun e => ~ is_show e) [Frame; MouseMove 3 4 0 0; Frame])
    by (repeat constructor; intros []).
  destruct (destroy_stops_until_shown edge_engine
              [Frame; MouseMove 3 4 0 0; Frame] Hs Hev Hns)
    as (s & r & H1 & _ & H2 & _ & H3 & _ & H4 & _).
  exists s, r. auto.
Defined.

Lemma running_frames (m : nat) :
  forall this p,
    nonneg_surface this -> isRunning this = true -> pending this = S p ->
    exists s,
      run (repeat Frame m) this = Ok s /\ nonneg_surface s /\
      isRunning s = true /\ pending s = S p /\
      time s = (time this + m)%nat.
Proof.
  induction m as [|m IH]; intros this p Hs Hr Hp; cbn [repeat run].
  - exists this. rewrite Nat.add_0_r. auto.
  - cbn [step]. rewrite Hp.
    destruct (animate_ok (painted [] p this) Hs) as [cmds [_ Ha]].
    change (isRunning (painted [] p this)) with (isRunning this) in Ha.
    rewrite Hr in Ha. rewrite Ha. cbn [bind].
    destruct (IH (painted cmds (S (pending (painted [] p this)))
                    (after_update (painted [] p this))) p)
      as (s & Hrun & Hss & Hrs & Hps & Hts);
      [exact Hs | exact Hr | reflexivity|].
    exists s. split; [exact Hrun|]. split; [exact Hss|].
    split; [exact Hrs|]. split; [exact Hps|].
    rewrite Hts. cbn. lia.
Qed.

Lemma hide_show_run (k : nat) :
  forall this,
    nonneg_surface this ->
    exists s,
      run (hide_show k) this = Ok s /\ nonneg_surface s /\
      (k <> 0%nat -> isRunning s = true) /\
      pending s = (pending this + k)%nat /\
      time s = (time this + k)%nat.
Proof.
  induction k as [|k IH]; intros this Hs; cbn [hide_show run].
  - exists this. rewrite !Nat.add_0_r. split; [reflexivity|].
    split; [exact Hs|]. split; [intros H; now destruct H | auto].
  - cbn [step negb set_running isRunning bind].
    set (hidden := set_running false this).
    assert (nonneg_surface (set_running true hidden)) as Hs' by exact Hs.
    destruct (animate_ok (set_running true hidden) Hs') as [cmds [_ Ha]].
    cbn [set_running isRunning] in Ha. rewrite Ha. cbn [bind].
    destruct (IH (painted cmds (S (pending (set_running true hidden)))
                    (after_update (set_running true hidden))))
      as (s & Hrun & Hss & Hrs & Hps & Hts); [exact Hs|].
    exists s. split; [exact Hrun|]. split; [exact Hss|].
    split.
    { intros _. destruct k as [|k]; [|apply Hrs; discriminate].
      cbn [hide_show run] in Hrun. injection Hrun as <-. reflexivity. }
    split; [rewrite Hps; cbn; lia | rewrite Hts; cbn; lia].
Qed.

(** X10.  A show requests a frame without cancelling the request that was
    outstanding at the hide: [k] times hiding and showing the page, with no
    frame in between, leave [k] more frame requests outstanding, and run
    [k] ticks.  A running engine never loses a request: each frame that
    runs ticks once and requests one frame, so with [p] requests
    outstanding there are [p] after any number of frames. *)
Theorem hide_show_adds_frame_requests (this : Engine) (k m p : nat) :
  nonneg_surface this -> isRunning this = true -> pending this = S p ->
  exists s s',
    run (hide_show k) this = Ok s /\
    isRunning s = true /\
    pending s = (S p + k)%nat /\
    time s = (time this + k)%nat /\
    run (repeat Frame m) s = Ok s' /\
    isRunning s' = true /\
    pending s' = (S p + k)%nat /\
    time s' = (time this + k + m)%nat.
Proof.
  intros Hs Hr Hp.
  destruct (hide_show_run k this Hs) as (s & Hrun & Hss & Hrs & Hps & Hts).
  assert (isRunning s = true) as Hrs'.
  { destruct k as [|k]; [|apply Hrs; discriminate].
    cbn [hide_show run] in Hrun. injection Hrun as <-. exact Hr. }
  rewrite Hp in Hps.
  destruct (running_frames m s (p + k) Hss Hrs' Hps)
    as (s' & Hrun' & _ & Hrs'' & Hps' & Hts').
  exists s, s'. rewrite Hts' , Hts. repeat split; auto.
Qed.

Lemma hide_show_adds_frame_requests_witness :
  exists s s',
    run (hide_show 1) edge_engine = Ok s /\
    pending s = 2%nat /\
    run (repeat Frame 2) s = Ok s' /\
    pending s' = 2%nat /\
    time s' = 3%nat.
Proof.
  assert (Hs : nonneg_surface edge_engine) by (split; cbn; lra).
  destruct (hide_show_adds_frame_requests edge_engine 1 2 0 Hs eq_refl eq_refl)
    as (s & s' & H1 & _ & H2 & _ & H3 & _ & H4 & H5).
  exists s, s'. auto.
Defined.

(** ** Drift, dead values and the fold cycle *)

Lemma drift_norm (this : Engine) (i : nat) :
  sqrt (drift_x this i * drift_x this i + drift_y this i * drift_y this i) = 0.1.
Proof.
  unfold drift_x, drift_y.
  set (a := INR (time this) * 0.0003 + INR i).
  pose proof (sin2_cos2 a) as H. unfold Rsqr in H.
  replace (sin a * 0.1 * (sin a * 0.1) + cos a * 0.1 * (cos a * 0.1))
    with (0.1 * 0.1 * (sin a * sin a + cos a * cos a)) by ring.
  rewrite H, Rmult_1_r. apply sqrt_square. lra.
Qed.

(** X11.  The drift of a tick is a vector of length exactly 0.1.  An
    element that the pointer does not repel and whose drifted position is
    inside the padded bounds moves its base position by that vector; with
    repulsion, and still no wrap, each base coordinate changes by less
    than 0.6. *)
Theorem tick_moves_by_drift (this : Engine) (i : nat) (sq : Square) :
  nth_error (squares this) i = Some sq ->
  exists s sq',
    update this = Ok s /\
    nth_error (squares s) i = Some sq' /\
    let dx := sin (INR (time s) * 0.0003 + INR i) * 0.1 in
    let dy := cos (INR (time s) * 0.0003 + INR i) * 0.1 in
    let dist := sqrt ((x sq' - mouseX s) * (x sq' - mouseX s)
                      + (y sq' - mouseY s) * (y sq' - mouseY s)) in
    sqrt (dx * dx + dy * dy) = 0.1 /\
    (- size sq <= baseX sq + dx <= width s + size sq ->
     - size sq <= baseY sq + dy <= height s + size sq ->
     (-0.6 < baseX sq' - baseX sq < 0.6 /\
      -0.6 < baseY sq' - baseY sq < 0.6) /\
     (150 <= dist \/ dist = 0 ->
      baseX sq' - baseX sq = dx /\ baseY sq' - baseY sq = dy /\
      sqrt ((baseX sq' - baseX sq) * (baseX sq' - baseX sq)
            + (baseY sq' - baseY sq) * (baseY sq' - baseY sq)) = 0.1)).
Proof.
  intros Hi. exists (after_update this), (updated (ticked this) i sq).
  split; [apply update_ok|].
  rewrite nth_error_after_update, Hi. split; [reflexivity|].
  cbn [after_update with_squares mouseX mouseY time width height updated
       x y baseX baseY].
  set (t := ticked this).
  change (mouseX this) with (mouseX t). change (mouseY this) with (mouseY t).
  change (width this) with (width t). change (height this) with (height t).
  change (S (time this)) with (time t).
  fold (drift_x t i) (drift_y t i). cbv zeta.
  split; [apply drift_norm|].
  intros Hinx Hiny. rewrite !wrap_inside by assumption.
  pose proof (drift_x_small t i) as Hdx.
  assert (-0.1 <= drift_y t i <= 0.1) as Hdy.
  { unfold drift_y. pose proof (COS_bound (INR (time t) * 0.0003 + INR i)). lra. }
  pose proof (push_x_small t sq) as Hpx. pose proof (push_y_small t sq) as Hpy.
  split; [lra|].
  intros Hd.
  assert (repelled t sq = false) as Hrep.
  { apply repelled_false. unfold pointer_dist.
    replace ((mouseX t - osc_x t sq) * (mouseX t - osc_x t sq)
             + (mouseY t - osc_y t sq) * (mouseY t - osc_y t sq))
      with ((osc_x t sq - mouseX t) * (osc_x t sq - mouseX t)
            + (osc_y t sq - mouseY t) * (osc_y t sq - mouseY t)) by ring.
    lra. }
  unfold push_x, push_y. rewrite Hrep.
  replace (baseX sq + drift_x t i - 0 - baseX sq) with (drift_x t i) by ring.
  replace (baseY sq + drift_y t i - 0 - baseY sq) with (drift_y t i) by ring.
  split; [reflexivity|]. split; [reflexivity | apply drift_norm].
Qed.

Lemma tick_moves_by_drift_witness :
  exists s sq',
    update late_engine = Ok s /\ nth_error (squares s) 0 = Some sq'.
Proof.
  assert (Hi : nth_error (squares late_engine) 0 = Some late_square)
    by reflexivity.
  destruct (tick_moves_by_drift late_engine 0 late_square Hi)
    as (s & sq' & H1 & H2 & _).
  exists s, sq'. auto.
Defined.

Lemma updated_same_but_xy (this : Engine) (i : nat) (p q : Square) :
  same_but_xy p q -> updated this i p = updated this i q.
Proof.
  unfold same_but_xy, with_xy. intros H.
  injection H as Hsz Hrot Hrs Hcol Hop Hpx Hpy Hsx Hsy Hax Hay Hbx Hby Hfs Hfv Hl.
  unfold updated, push_x, push_y, repelled, force, pointer_dist, osc_x, osc_y,
    next_fold.
  rewrite Hsz, Hrot, Hrs, Hcol, Hop, Hpx, Hpy, Hsx, Hsy, Hax, Hay, Hbx, Hby,
    Hfs, Hfv, Hl.
  reflexivity.
Qed.

Lemma map_from_same_but_xy (this : Engine) (l l' : list Square) :
  Forall2 same_but_xy l l' ->
  forall i, map_from (updated this) i l = map_from (updated this) i l'.
Proof.
  induction 1 as [|p q l l' Hpq _ IH]; intros i; cbn [map_from]; [reflexivity|].
  rewrite (updated_same_but_xy this i p q Hpq), IH. reflexivity.
Qed.

(** X12.  [update] reads neither [x] nor [y] of an element, it only
    writes them, and [animate] draws after [update]: a running engine
    animates to the same state, with the same calls on the context,
    whatever [x] and [y] its elements had.  The [x] and [y] that
    [createSquares] draws from [Math.random] are never displayed. *)
Theorem animate_ignores_xy (this : Engine) (l' : list Square) :
  isRunning this = true ->
  Forall2 same_but_xy (squares this) l' ->
  update (with_squares this (time this) l') = update this /\
  animate (with_squares this (time this) l') = animate this.
Proof.
  intros Hr HF.
  assert (after_update (with_squares this (time this) l') = after_update this)
    as Hu.
  { unfold after_update.
    change (updated (ticked (with_squares this (time this) l')))
      with (updated (ticked this)).
    change (squares (with_squares this (time this) l')) with l'.
    rewrite <- (map_from_same_but_xy (ticked this) _ _ HF 0%nat).
    reflexivity. }
  split; [rewrite !update_ok, Hu; reflexivity|].
  unfold animate. cbn [with_squares isRunning]. rewrite Hr. cbn [negb].
  rewrite !update_ok, Hu. reflexivity.
Qed.

Lemma animate_ignores_xy_witness :
  animate (with_squares edge_engine 0 [with_xy 1 2 edge_square])
  = animate edge_engine.
Proof.
  assert (Hr : isRunning edge_engine = true) by reflexivity.
  assert (HF : Forall2 same_but_xy (squares edge_engine)
                 [with_xy 1 2 edge_square])
    by (repeat constructor).
  exact (proj2 (animate_ignores_xy edge_engine [with_xy 1 2 edge_square] Hr HF)).
Defined.





(** ** The pointer *)

Lemma run_total (evs : list Event) :
  forall this,
    nonneg_surface this -> Forall valid_event evs ->
    exists s, run evs this = Ok s /\ nonneg_surface s.
Proof.
  induction evs as [|e evs IH]; intros this Hs Hev; cbn [run]; [eauto|].
  inversion Hev as [|? ? He Hevs]; subst.
  destruct (step_time e this Hs He) as (s1 & -> & Hs1 & _). cbn [bind].
  now apply IH.
Qed.

(** X14.  The recorded pointer is that of the last mouse move, relative to
    the canvas at that move, whatever happened before it and whatever
    frames, resizes, hides, shows or destroys came after it: a resize
    neither rescales nor resets the pointer. *)
Theorem pointer_is_last_mouse_move
  (this : Engine) (before after : list Event)
  (clientX clientY rect_left rect_top : R) :
  nonneg_surface this ->
  Forall valid_event before -> Forall valid_event after ->
  Forall no_mouse_move after ->
  exists s,
    run (before ++ MouseMove clientX clientY rect_left rect_top :: after) this
    = Ok s /\
    mouseX s = clientX - rect_left /\
    mouseY s = clientY - rect_top.
Proof.
  intros Hs Hb Ha Hnm.
  destruct (run_total before this Hs Hb) as (s1 & Hr1 & Hs1).
  set (m := set_mouse (clientX - rect_left) (clientY - rect_top) s1).
  destruct (run_total after m Hs1 Ha) as (s & Hr & _).
  exists s. rewrite (run_app _ _ _ _ Hr1). cbn [run step bind]. fold m.
  split; [exact Hr|].
  destruct (run_mouse after m s Hnm Hr) as [Hx Hy].
  rewrite Hx, Hy. split; reflexivity.
Qed.

Lemma pointer_is_last_mouse_move_witness :
  exists s,
    run ([Frame; MouseMove 1 1 0 0]
         ++ MouseMove 120 80 20 30 :: [Resize 400 300 2 (fun _ => 0); Frame])
      edge_engine = Ok s /\
    mouseX s = 120 - 20 /\ mouseY s = 80 - 30.
Proof.
  assert (Hs : nonneg_surface edge_engine) by (split; cbn; lra).
  assert (Hb : Forall valid_event [Frame; MouseMove 1 1 0 0])
    by (repeat constructor).
  assert (Ha : Forall valid_event [Resize 400 300 2 (fun _ => 0); Frame]).
  { constructor; [|repeat constructor].
    cbn. split; [lra|]. split; [lra | exact zero_random]. }
  assert (Hnm : Forall no_mouse_move [Resize 400 300 2 (fun _ => 0); Frame])
    by (repeat constructor).
  exact (pointer_is_last_mouse_move edge_engine [Frame; MouseMove 1 1 0 0]
           [Resize 400 300 2 (fun _ => 0); Frame] 120 80 20 30 Hs Hb Ha Hnm).
Defined.

(** * The page scripts *)

(** ** isValidEmail *)

Lemma many_spec (p : N -> bool) (k : JsString -> bool) (s : JsString) :
  many p k s = true <->
  exists a b, s = a ++ b /\ a <> [] /\ forallb p a = true /\ k b = true.
Proof.
  split.
  - induction s as [|c s IH]; cbn [many]; [discriminate|].
    intros H. apply andb_true_iff in H. destruct H as [Hc H].
    apply orb_true_iff in H. destruct H as [H|H].
    + destruct (IH H) as (a & b & -> & _ & Ha & Hb).
      exists (c :: a), b. cbn [app forallb]. rewrite Hc, Ha.
      repeat split; [discriminate | exact Hb].
    + exists [c], s. cbn [app forallb]. rewrite Hc.
      repeat split; [discriminate | exact H].
  - intros (a & b & -> & Hne & Ha & Hb).
    induction a as [|c a IH]; [contradiction|].
    cbn [app many forallb] in *. apply andb_true_iff in Ha.
    destruct Ha as [Hc Ha]. rewrite Hc. cbn [andb].
    destruct a as [|c' a]; [cbn [app]; rewrite Hb; apply orb_true_r|].
    rewrite IH; [reflexivity | discriminate | exact Ha].
Qed.

(** X15.  [isValidEmail] accepts exactly the strings of the form
    [local @ domain . tld] in which the three parts are not empty and hold
    neither white space nor [@]; a part may hold full stops, also next to
    each other. *)
Theorem isValidEmail_spec (email : JsString) :
  isValidEmail email = true <->
  exists local domain tld,
    email = local ++ at_sign :: domain ++ full_stop :: tld /\
    local <> [] /\ domain <> [] /\ tld <> [] /\
    forallb not_space_at local = true /\
    forallb not_space_at domain = true /\
    forallb not_space_at tld = true.
Proof.
  unfold isValidEmail, emailRegex. cbn [test]. rewrite many_spec. split.
  - intros (a & r1 & -> & Hna & Ha & H1).
    destruct r1 as [|c r1]; [discriminate|].
    apply andb_true_iff in H1. destruct H1 as [Hc H1].
    apply N.eqb_eq in Hc. subst c.
    apply many_spec in H1. destruct H1 as (b & r2 & -> & Hnb & Hb & H2).
    destruct r2 as [|c r2]; [discriminate|].
    apply andb_true_iff in H2. destruct H2 as [Hc H2].
    apply N.eqb_eq in Hc. subst c.
    apply many_spec in H2. destruct H2 as (t & r3 & -> & Hnt & Ht & H3).
    destruct r3 as [|? ?]; [|discriminate].
    exists a, b, t. rewrite app_nil_r. repeat split; assumption.
  - intros (a & b & t & -> & Hna & Hnb & Hnt & Ha & Hb & Ht).
    exists a, (at_sign :: b ++ full_stop :: t).
    split; [reflexivity|]. split; [exact Hna|]. split; [exact Ha|].
    rewrite N.eqb_refl. cbn [andb]. apply many_spec.
    exists b, (full_stop :: t).
    split; [reflexivity|]. split; [exact Hnb|]. split; [exact Hb|].
    rewrite N.eqb_refl. cbn [andb]. apply many_spec.
    exists t, []. rewrite app_nil_r. repeat split; assumption.
Qed.

Lemma not_space_at_no_space (l : JsString) :
  forallb not_space_at l = true ->
  forallb (fun c => negb (is_space c)) l = true /\
  count_occ N.eq_dec l at_sign = 0%nat.
Proof.
  induction l as [|c l IH]; cbn [forallb count_occ]; [auto|].
  intros H. apply andb_true_iff in H. destruct H as [Hc Hl].
  unfold not_space_at in Hc. apply andb_true_iff in Hc. destruct Hc as [Hs Ha].
  destruct (IH Hl) as [IH1 IH2]. rewrite Hs, IH1. split; [reflexivity|].
  destruct (N.eq_dec c at_sign) as [->|_]; [|exact IH2].
  rewrite N.eqb_refl in Ha. discriminate.
Qed.

(** X16.  What [isValidEmail] accepts holds no white space anywhere, holds
    exactly one [@] and at least one full stop, has at least five code
    units and does not begin with the [@]. *)
Theorem isValidEmail_necessary (email : JsString) :
  isValidEmail email = true ->
  forallb (fun c => negb (is_space c)) email = true /\
  count_occ N.eq_dec email at_sign = 1%nat /\
  (5 <= List.length email)%nat /\
  hd_error email <> Some at_sign /\
  In full_stop email.
Proof.
  intros H. apply isValidEmail_spec in H.
  destruct H as (a & b & t & -> & Hna & Hnb & Hnt & Ha & Hb & Ht).
  destruct (not_space_at_no_space a Ha) as [Ha1 Ha2].
  destruct (not_space_at_no_space b Hb) as [Hb1 Hb2].
  destruct (not_space_at_no_space t Ht) as [Ht1 Ht2].
  assert (count_occ N.eq_dec [full_stop] at_sign = 0%nat) as Hdot by reflexivity.
  split.
  { rewrite forallb_app, Ha1. cbn [forallb andb].
    rewrite forallb_app, Hb1. cbn [forallb]. rewrite Ht1. reflexivity. }
  split.
  { rewrite count_occ_app, Ha2. cbn [count_occ].
    destruct (N.eq_dec at_sign at_sign) as [_|Hn]; [|contradiction].
    rewrite count_occ_app, Hb2. cbn [count_occ].
    destruct (N.eq_dec full_stop at_sign) as [Hn|_]; [discriminate Hn|].
    rewrite Ht2. reflexivity. }
  split.
  { rewrite length_app. cbn [List.length]. rewrite length_app. cbn [List.length].
    destruct a; [contradiction|]. destruct b; [contradiction|].
    destruct t; [contradiction|]. cbn [List.length]. lia. }
  split.
  { destruct a as [|c a]; [contradiction|]. cbn [app hd_error].
    intros [= ->]. cbn [forallb] in Ha. apply andb_true_iff in Ha.
    destruct Ha as [Hc _]. unfold not_space_at in Hc.
    rewrite N.eqb_refl in Hc. rewrite andb_false_r in Hc. discriminate. }
  apply in_or_app. right. right. apply in_or_app. right. left. reflexivity.
Qed.

Lemma isValidEmail_necessary_witness :
  isValidEmail (of_string "ada@example.org") = true /\
  count_occ N.eq_dec (of_string "ada@example.org") at_sign = 1%nat.
Proof.
  assert (H : isValidEmail (of_string "ada@example.org") = true)
    by reflexivity.
  split; [exact H|].
  apply (isValidEmail_necessary (of_string "ada@example.org") H).
Defined.

(** ** Keyboard navigation *)

Lemma length_toggle (l : list bool) :
  forall i, List.length (toggle i l) = List.length l.
Proof.
  induction l as [|b l IH]; intros [|i]; cbn [toggle List.length];
    try reflexivity. now rewrite IH.
Qed.

Lemma toggle_toggle (l : list bool) : forall i, toggle i (toggle i l) = l.
Proof.
  induction l as [|b l IH]; intros [|i]; cbn [toggle]; try reflexivity.
  - now rewrite negb_involutive.
  - now rewrite IH.
Qed.

Lemma nth_error_toggle (l : list bool) :
  forall i j,
    nth_error (toggle i l) j
    = if Nat.eqb i j then option_map negb (nth_error l j) else nth_error l j.
Proof.
  induction l as [|b l IH]; intros [|i] [|j]; cbn [toggle nth_error Nat.eqb];
    try reflexivity.
  - destruct (Nat.eqb i j); reflexivity.
  - apply IH.
Qed.

(** X17.  In a group of [n] options, [ArrowDown] on option [index] moves
    the focus to the next option and from the last to the first,
    [ArrowUp] to the previous one and from the first to the last; the
    focus stays on an option of the group, the default action is
    prevented, no box is toggled, and each arrow undoes the other. *)
Theorem arrows_cycle_focus (index : Z) (g : Group) :
  (0 <= index < Z.of_nat (List.length (checked g)))%Z ->
  let n := Z.of_nat (List.length (checked g)) in
  let down := fst (keydown index "ArrowDown" g) in
  let up := fst (keydown index "ArrowUp" g) in
  keydown index "ArrowDown" g = (down, true) /\
  keydown index "ArrowUp" g = (up, true) /\
  checked down = checked g /\ checked up = checked g /\
  focus down = Some (if (index + 1 =? n)%Z then 0 else index + 1)%Z /\
  focus up = Some (if (index =? 0)%Z then n - 1 else index - 1)%Z /\
  (exists j, focus down = Some j /\ (0 <= j < n)%Z /\
             focus (fst (keydown j "ArrowUp" down)) = Some index) /\
  (exists j, focus up = Some j /\ (0 <= j < n)%Z /\
             focus (fst (keydown j "ArrowDown" up)) = Some index).
Proof.
  intros Hi. cbv zeta. unfold keydown. cbn [String.eqb Ascii.eqb Bool.eqb orb fst
    checked focus].
  set (n := Z.of_nat (List.length (checked g))) in *.
  assert (Hdown : Z.rem (index + 1) n
                  = if (index + 1 =? n)%Z then 0%Z else (index + 1)%Z).
  { destruct (index + 1 =? n)%Z eqn:E.
    - apply Z.eqb_eq in E. rewrite E. apply Z.rem_same. lia.
    - apply Z.eqb_neq in E. apply Z.rem_small. lia. }
  assert (Hup : Z.rem (index - 1 + n) n
                = if (index =? 0)%Z then (n - 1)%Z else (index - 1)%Z).
  { destruct (index =? 0)%Z eqn:E.
    - apply Z.eqb_eq in E. subst index.
      replace (0 - 1 + n)%Z with (n - 1)%Z by lia. apply Z.rem_small. lia.
    - apply Z.eqb_neq in E.
      rewrite Z.rem_mod_nonneg by lia.
      replace (index - 1 + n)%Z with (index - 1 + 1 * n)%Z by lia.
      rewrite Z.mod_add by lia. apply Z.mod_small. lia. }
  rewrite Hdown, Hup.
  split; [reflexivity|]. split; [reflexivity|].
  split; [reflexivity|]. split; [reflexivity|].
  split; [reflexivity|]. split; [reflexivity|].
  split.
  - eexists; split; [reflexivity|].
    destruct (index + 1 =? n)%Z eqn:E.
    + apply Z.eqb_eq in E. split; [lia|]. f_equal.
      rewrite Z.rem_small by lia. lia.
    + apply Z.eqb_neq in E. split; [lia|]. f_equal.
      replace (index + 1 - 1 + n)%Z with (index + 1 * n)%Z by lia.
      rewrite Z.rem_mod_nonneg by lia.
      rewrite Z.mod_add by lia. apply Z.mod_small. lia.
  - eexists; split; [reflexivity|].
    destruct (index =? 0)%Z eqn:E.
    + apply Z.eqb_eq in E. split; [lia|]. f_equal.
      replace (n - 1 + 1)%Z with n by lia. rewrite Z.rem_same by lia. lia.
    + apply Z.eqb_neq in E. split; [lia|]. f_equal.
      replace (index - 1 + 1)%Z with index by lia. apply Z.rem_small. lia.
Qed.

Lemma arrows_cycle_focus_witness :
  focus (fst (keydown 2 "ArrowDown"
                {| checked := [true; false; false]; focus := Some 2%Z |}))
  = Some 0%Z.
Proof.
  assert (Hi : (0 <= 2 < Z.of_nat (List.length [true; false; false]))%Z)
    by (cbn; lia).
  destruct (arrows_cycle_focus 2
              {| checked := [true; false; false]; focus := Some 2%Z |} Hi)
    as (_ & _ & _ & _ & H & _).
  exact H.
Defined.

(** X18.  The space bar and [Enter] on option [index] flip the box of that
    option and of no other, leave the focus where it is and prevent the
    default action; pressed twice they restore the group.  A key that is
    none of space, [Enter], [ArrowDown] and [ArrowUp] changes nothing and
    prevents nothing. *)
Theorem space_toggles_one_box (index : Z) (key : string) (g : Group) :
  (0 <= index < Z.of_nat (List.length (checked g)))%Z ->
  (key = " " \/ key = "Enter")%string ->
  let g1 := fst (keydown index key g) in
  keydown index key g = (g1, true) /\
  focus g1 = focus g /\
  List.length (checked g1) = List.length (checked g) /\
  (forall j,
      nth_error (checked g1) j
      = if Nat.eqb (Z.to_nat index) j
        then option_map negb (nth_error (checked g) j)
        else nth_error (checked g) j) /\
  (exists b, nth_error (checked g) (Z.to_nat index) = Some b /\
             nth_error (checked g1) (Z.to_nat index) = Some (negb b)) /\
  fst (keydown index key g1) = g /\
  (forall other,
      other <> " "%string -> other <> "Enter"%string ->
      other <> "ArrowDown"%string -> other <> "ArrowUp"%string ->
      keydown index other g = (g, false)).
Proof.
  intros Hi Hkey. cbv zeta.
  assert (Hstep : forall h,
             keydown index key h
             = ({| checked := toggle (Z.to_nat index) (checked h);
                   focus := focus h |}, true)).
  { intros h. destruct Hkey as [-> | ->]; reflexivity. }
  rewrite !Hstep. cbn [fst checked focus].
  split; [reflexivity|]. split; [reflexivity|].
  split; [apply length_toggle|].
  split; [intros j; apply nth_error_toggle|].
  split.
  { destruct (nth_error (checked g) (Z.to_nat index)) as [b|] eqn:Hb.
    - exists b. split; [reflexivity|].
      rewrite nth_error_toggle, Nat.eqb_refl, Hb. reflexivity.
    - apply nth_error_None in Hb. lia. }
  split.
  { rewrite toggle_toggle. destruct g; reflexivity. }
  intros other H1 H2 H3 H4. unfold keydown.
  apply String.eqb_neq in H1, H2, H3, H4.
  rewrite H1, H2, H3, H4. reflexivity.
Qed.

Lemma space_toggles_one_box_witness :
  checked (fst (keydown 1 " "
                  {| checked := [true; false; false]; focus := Some 1%Z |}))
  = [true; true; false].
Proof.
  assert (Hi : (0 <= 1 < Z.of_nat (List.length [true; false; false]))%Z)
    by (cbn; lia).
  assert (Hk : (" " = " " \/ " " = "Enter")%string) by (left; reflexivity).
  destruct (space_toggles_one_box 1 " "
              {| checked := [true; false; false]; focus := Some 1%Z |} Hi Hk)
    as (H & _).
  exact (f_equal (fun p => checked (fst p)) H).
Defined.
